(** * Greenwashing audit: the extraction and scoring pipeline of [app.py]

    A shallow embedding of [process_pdfs] (src/app.py, lines 38-155) and the
    properties its specification states about it.

    Modelling conventions.
    - Text is a list of characters ([list ascii]); a character is a code
      point below 256.  On that range Python's [re.IGNORECASE] folds exactly
      the letters A-Z / a-z onto the letters of the patterns, and [\d] is
      exactly 0-9.
    - Python floats are idealised as exact rationals ([Q]): no rounding
      error, no overflow to infinity, no NaN.  [==] on floats is [Qeq_bool].
      Where overflow decides, the scores are also read on binary64 values
      ([scoring64]).
    - A raised exception is the [Raise] branch of [result]; the
      [try ... except Exception: continue] of the batch loop is the match on
      that result in [process_pdfs]. *)

From Stdlib Require Import PrimFloat.
From Stdlib Require SpecFloat FloatOps.
From Stdlib Require Import String Ascii List Bool Arith ZArith QArith Qround Qabs Qminmax Lia Lqa.
Import ListNotations.

Set Implicit Arguments.

(* ================================================================== *)
(** * Text *)
(* ================================================================== *)

Definition text := list ascii.

(** A string literal as text. *)
Definition str (s : string) : text := list_ascii_of_string s.

Definition newline : ascii := ascii_of_nat 10.

Definition is_digit (c : ascii) : bool :=
  let n := nat_of_ascii c in (48 <=? n)%nat && (n <=? 57)%nat.

Definition is_upper (c : ascii) : bool :=
  let n := nat_of_ascii c in (65 <=? n)%nat && (n <=? 90)%nat.

Definition is_lower (c : ascii) : bool :=
  let n := nat_of_ascii c in (97 <=? n)%nat && (n <=? 122)%nat.

Definition to_lower (c : ascii) : ascii :=
  if is_upper c then ascii_of_nat (nat_of_ascii c + 32) else c.

Definition to_upper (c : ascii) : ascii :=
  if is_lower c then ascii_of_nat (nat_of_ascii c - 32) else c.

(** Two characters are the same up to case. *)
Definition eqb_ci (a b : ascii) : bool := Ascii.eqb (to_lower a) (to_lower b).

(** Two texts are the same up to case, character by character. *)
Fixpoint text_eqb_ci (u v : text) : bool :=
  match u, v with
  | [], [] => true
  | a :: u', b :: v' => eqb_ci a b && text_eqb_ci u' v'
  | _, _ => false
  end.

Fixpoint text_eqb (u v : text) : bool :=
  match u, v with
  | [], [] => true
  | a :: u', b :: v' => Ascii.eqb a b && text_eqb u' v'
  | _, _ => false
  end.

(** [s.startswith(p)] *)
Fixpoint starts_with (p s : text) : bool :=
  match p, s with
  | [], _ => true
  | a :: p', b :: s' => Ascii.eqb a b && starts_with p' s'
  | _ :: _, [] => false
  end.

(** [s.endswith(p)] *)
Definition ends_with (p s : text) : bool :=
  starts_with (rev p) (rev s).

(** [s.replace(old, new)] for a non-empty [old]: the occurrences of [old]
    are replaced from left to right, without overlap.  [skip] counts the
    characters of an occurrence that are still to be dropped. *)
Fixpoint replace_from (old new : text) (skip : nat) (s : text) : text :=
  match s with
  | [] => []
  | c :: s' =>
      match skip with
      | S n => replace_from old new n s'
      | O => if starts_with old s
             then new ++ replace_from old new (length old - 1) s'
             else c :: replace_from old new 0 s'
      end
  end.

Definition py_replace (old new s : text) : text := replace_from old new 0 s.

(** [s.title()] on ASCII text: a letter that follows a letter is lowered,
    any other letter is raised. *)
Fixpoint title_from (prev_cased : bool) (s : text) : text :=
  match s with
  | [] => []
  | c :: s' =>
      (if prev_cased then to_lower c else to_upper c)
        :: title_from (is_upper c || is_lower c) s'
  end.

Definition py_title (s : text) : text := title_from false s.

(* ================================================================== *)
(** * Numbers *)
(* ================================================================== *)

Open Scope Q_scope.

(** [a < b] as the code tests it. *)
Definition Qltb (a b : Q) : bool := negb (Qle_bool b a).

(** Python's [min(a, b)]: [b] when [b < a], else [a]. *)
Definition py_min (a b : Q) : Q := if Qltb b a then b else a.

(** The integer nearest to [x], a tie going to the even neighbour. *)
Definition round_half_even (x : Q) : Z :=
  let f := Qfloor x in
  match Qcompare (x - inject_Z f) (1 # 2) with
  | Lt => f
  | Gt => (f + 1)%Z
  | Eq => if Z.even f then f else (f + 1)%Z
  end.

(** [round(x, 1)] *)
Definition py_round1 (x : Q) : Q := inject_Z (round_half_even (x * 10)) / 10.

(* ================================================================== *)
(** * Scoring (lines 126-136) *)
(* ================================================================== *)

Definition policies : list text :=
  [ str "Climate Change Policy"; str "Biodiversity Policy"; str "Water Policy";
    str "Human Rights Policy"; str "Whistle Blower Policy" ].

Record scores := mkScores { talk_score : Q; walk_score : Q; risk_score : Q }.

Definition scoring (policy_count : nat) (csr_spend renewable_energy total_energy : Q)
  : scores :=
  let talk_score :=
    (inject_Z (Z.of_nat policy_count) / inject_Z (Z.of_nat (length policies))) * 100 in
  let renew_mix :=
    if Qltb 10 total_energy then (renewable_energy / total_energy) * 100 else 0 in
  let csr_score := py_min ((csr_spend / 500) * 50) 50 in
  let walk_score := renew_mix + csr_score in
  let walk_score := if Qltb 100 walk_score then 100 else walk_score in
  let risk_score := talk_score - walk_score in
  let risk_score := if Qltb risk_score 0 then 0 else risk_score in
  mkScores talk_score walk_score risk_score.

(** The three scores as they are stored in the record (lines 140-142). *)
Definition rounded (s : scores) : scores :=
  mkScores (py_round1 (talk_score s)) (py_round1 (walk_score s))
           (py_round1 (risk_score s)).

(** The scoring engine as section 4.4 of the specification words it. *)
Module Spec.

Definition talk_score (policy_count : nat) : Q :=
  (inject_Z (Z.of_nat policy_count) / 5) * 100.

Definition renew_mix (renewable_energy total_energy : Q) : Q :=
  match Qcompare 10 total_energy with
  | Lt => (renewable_energy / total_energy) * 100
  | _ => 0
  end.

Definition csr_component (csr_spend : Q) : Q := Qmin ((csr_spend / 500) * 50) 50.

Definition walk_score (csr_spend renewable_energy total_energy : Q) : Q :=
  Qmin (renew_mix renewable_energy total_energy + csr_component csr_spend) 100.

Definition risk_score (policy_count : nat) (csr_spend renewable_energy total_energy : Q)
  : Q :=
  Qmax (talk_score policy_count
        - walk_score csr_spend renewable_energy total_energy) 0.

End Spec.

Close Scope Q_scope.

(* ================================================================== *)
(** * Regular expressions: the fragment of Python's [re] the code uses *)
(* ================================================================== *)

(** The flags of a search: [re.IGNORECASE] and [re.DOTALL]. *)
Record flags := mkFlags { ignorecase : bool; dotall : bool }.

(** An item of a character class [[...]]. *)
Inductive class_item :=
| CChar (c : ascii)     (* a character of the class *)
| CDigit.               (* \d inside the class *)

(** A pattern item that consumes exactly one character. *)
Inductive atom :=
| Lit (c : ascii)                 (* a literal character *)
| Dot                             (* . *)
| Digit                           (* \d *)
| Class (items : list class_item) (* [...] *).

(** Patterns.  The source repeats only one-character items (the dot, the
    class of digits and comma, the point, the digit), so the repetitions
    take an atom. *)
Inductive regex :=
| Eps
| Atom (a : atom)
| Seq (r1 r2 : regex)
| Alt (r1 r2 : regex)               (* r1|r2 : r1 is tried first *)
| Group (n : nat) (r : regex)       (* the n-th capturing group *)
| Star (a : atom)                   (* a*   greedy *)
| StarLazy (a : atom)               (* a*?  lazy *)
| Plus (a : atom)                   (* a+   greedy *)
| Opt (a : atom).                   (* a?   greedy *)

Definition item_accepts (i : class_item) (c : ascii) : bool :=
  match i with
  | CChar x => Ascii.eqb x c
  | CDigit => is_digit c
  end.

Definition accepts (fl : flags) (a : atom) (c : ascii) : bool :=
  match a with
  | Lit x => if ignorecase fl then eqb_ci x c else Ascii.eqb x c
  | Dot => dotall fl || negb (Ascii.eqb c newline)
  | Digit => is_digit c
  | Class items => existsb (fun i => item_accepts i c) items
  end.

(** The text of the groups closed so far, most recent first. *)
Definition captures := list (nat * text).

(** What the matcher has consumed between the input [s] and its suffix [s']. *)
Definition consumed (s s' : text) : text := firstn (length s - length s') s.

Section Matcher.

Variable fl : flags.
Variable A : Type.

(** What is left to match after the current item: a backtracking matcher
    in continuation-passing style, where [None] asks for the next choice. *)
Definition cont := text -> captures -> option A.

Fixpoint star_greedy (a : atom) (k : cont) (s : text) (caps : captures) : option A :=
  match s with
  | c :: s' =>
      if accepts fl a c then
        match star_greedy a k s' caps with
        | Some x => Some x
        | None => k s caps
        end
      else k s caps
  | [] => k s caps
  end.

Fixpoint star_lazy (a : atom) (k : cont) (s : text) (caps : captures) : option A :=
  match k s caps with
  | Some x => Some x
  | None =>
      match s with
      | c :: s' => if accepts fl a c then star_lazy a k s' caps else None
      | [] => None
      end
  end.

Fixpoint exec (r : regex) (k : cont) (s : text) (caps : captures) : option A :=
  match r with
  | Eps => k s caps
  | Atom a =>
      match s with
      | c :: s' => if accepts fl a c then k s' caps else None
      | [] => None
      end
  | Seq r1 r2 => exec r1 (exec r2 k) s caps
  | Alt r1 r2 =>
      match exec r1 k s caps with
      | Some x => Some x
      | None => exec r2 k s caps
      end
  | Group n r => exec r (fun s' caps' => k s' ((n, consumed s s') :: caps')) s caps
  | Star a => star_greedy a k s caps
  | StarLazy a => star_lazy a k s caps
  | Plus a =>
      match s with
      | c :: s' => if accepts fl a c then star_greedy a k s' caps else None
      | [] => None
      end
  | Opt a =>
      match s with
      | c :: s' =>
          if accepts fl a c then
            match k s' caps with
            | Some x => Some x
            | None => k s caps
            end
          else k s caps
      | [] => k s caps
      end
  end.

End Matcher.

(** A match object: [group0] is [m.group(0)], [groups] the numbered groups. *)
Record match_obj := mkMatch { group0 : text; groups : captures }.

Fixpoint assoc_nat (n : nat) (caps : captures) : option text :=
  match caps with
  | [] => None
  | (i, t) :: rest => if Nat.eqb i n then Some t else assoc_nat n rest
  end.

(** [m.group(n)] for n >= 1; a group that took no part in the match is the
    empty text here (Python gives None; the code reads only group 2, which
    every match of its patterns sets). *)
Definition group (m : match_obj) (n : nat) : text :=
  match assoc_nat n (groups m) with
  | Some t => t
  | None => []
  end.

(** The pattern applied at the start of [s]. *)
Definition match_here (fl : flags) (r : regex) (s : text) : option match_obj :=
  exec fl r (fun s' caps => Some (mkMatch (consumed s s') caps)) s [].

(** [re.search(r, s, fl)]: the match at the leftmost position that has one. *)
Fixpoint re_search (fl : flags) (r : regex) (s : text) : option match_obj :=
  match match_here fl r s with
  | Some m => Some m
  | None =>
      match s with
      | [] => None
      | _ :: s' => re_search fl r s'
      end
  end.

(** A phrase, character by character. *)
Fixpoint lit (p : text) : regex :=
  match p with
  | [] => Eps
  | c :: p' => Seq (Atom (Lit c)) (lit p')
  end.

(** The number group of the field patterns: [[\d,]+], then [\.?], then
    greedy [\d] repetition. *)
Definition number_re : regex :=
  Seq (Plus (Class [CDigit; CChar ","%char]))
      (Seq (Opt (Lit "."%char)) (Star Digit)).

(** A field pattern: group 1 is [primary|fallback], then the lazy [.*?],
    then group 2, the number. *)
Definition field_re (primary fallback : string) : regex :=
  Seq (Group 1 (Alt (lit (str primary)) (lit (str fallback))))
      (Seq (StarLazy Dot) (Group 2 number_re)).

Definition csr_re : regex := field_re "Community Spending" "CSR Expenditure".
Definition ren_re : regex := field_re "Renewable Energy Use" "Renewable Energy".
Definition en_re : regex := field_re "Total Energy Consumption" "Energy Consumption".
Definition ghg_re : regex := field_re "GHG Scope 1" "Scope 1 Emissions".

(** [rf"{p}.*?Yes"] *)
Definition policy_re (p : text) : regex :=
  Seq (lit p) (Seq (StarLazy Dot) (lit (str "Yes"))).

Definition IGNORECASE : flags := mkFlags true false.
Definition IGNORECASE_DOTALL : flags := mkFlags true true.

(* ================================================================== *)
(** * Exceptions *)
(* ================================================================== *)

Inductive exn :=
| ValueError      (* float() of a text that is not a number *)
| TypeError       (* str += None *)
| PdfError.       (* anything pdfplumber raises on a file or a page *)

Inductive result (A : Type) :=
| Ok (a : A)
| Raise (e : exn).

Arguments Ok {A} a.
Arguments Raise {A} e.

Definition bind {A B : Type} (m : result A) (f : A -> result B) : result B :=
  match m with
  | Ok a => f a
  | Raise e => Raise e
  end.

Notation "x <- m ;; f" := (bind m (fun x => f))
  (at level 61, m at next level, right associativity).

(* ================================================================== *)
(** * Reading a number: [float(group.replace(',', ''))] *)
(* ================================================================== *)

Definition digit_val (c : ascii) : Z := Z.of_nat (nat_of_ascii c - 48).

(** The digits of [s] read in base ten, after the value [acc]. *)
Fixpoint digits_val (acc : Z) (s : text) : Z :=
  match s with
  | [] => acc
  | c :: s' => digits_val (10 * acc + digit_val c) s'
  end.

(** The longest prefix of digits, and what follows it. *)
Fixpoint span_digits (s : text) : text * text :=
  match s with
  | c :: s' =>
      if is_digit c then let (d, rest) := span_digits s' in (c :: d, rest)
      else ([], s)
  | [] => ([], [])
  end.

(** [float(s)] on the texts the number group can hand to it: digits with at
    most one point.  Such a text is a number as soon as it has a digit
    ("12", "12.", ".5", "12.5"); "" and "." raise ValueError.  Signs,
    exponents and blanks, which [float] also reads, cannot come out of the
    number group and are not modelled: they raise here. *)
Definition py_float (s : text) : result Q :=
  let (ip, rest) := span_digits s in
  match rest with
  | [] =>
      match ip with
      | [] => Raise ValueError
      | _ :: _ => Ok (inject_Z (digits_val 0 ip))
      end
  | c :: fr =>
      if Ascii.eqb c "."%char && forallb is_digit fr
         && negb (Nat.eqb (length ip + length fr) 0)
      then Ok (inject_Z (digits_val 0 (ip ++ fr))
               / inject_Z (10 ^ Z.of_nat (length fr)))%Q
      else Raise ValueError
  end.

(** [float(m.group(2).replace(',', ''))] *)
Definition parse_group2 (m : match_obj) : result Q :=
  py_float (py_replace (str ",") (str "") (group m 2)).

(* ================================================================== *)
(** * The per-document scan (lines 80-118) *)
(* ================================================================== *)

(** The local variables of one document's pass. *)
Record scan_state := mkState {
  full_text : text;
  csr_spend : Q;
  renewable_energy : Q;
  total_energy : Q;
  ghg_emissions : Q;
  csr_snippet : text;
  renew_snippet : text
}.

Definition Not_Found : text := str "Not Found".

(** Lines 80-90. *)
Definition init_state : scan_state :=
  mkState [] 0 0 1 0 Not_Found Not_Found.

(** What [page.extract_text()] does on a page. *)
Inductive page :=
| PageText (t : text)     (* returns the text of the page *)
| PageNone                (* returns None: nothing extractable *)
| PageCorrupt.            (* raises *)

Definition extract_text (p : page) : result (option text) :=
  match p with
  | PageText t => Ok (Some t)
  | PageNone => Ok None
  | PageCorrupt => Raise PdfError
  end.

Definition set_full_text (v : text) (st : scan_state) : scan_state :=
  mkState v (csr_spend st) (renewable_energy st) (total_energy st)
          (ghg_emissions st) (csr_snippet st) (renew_snippet st).

Definition set_csr (v : Q) (sn : text) (st : scan_state) : scan_state :=
  mkState (full_text st) v (renewable_energy st) (total_energy st)
          (ghg_emissions st) sn (renew_snippet st).

Definition set_renewable (v : Q) (sn : text) (st : scan_state) : scan_state :=
  mkState (full_text st) (csr_spend st) v (total_energy st)
          (ghg_emissions st) (csr_snippet st) sn.

Definition set_total_energy (v : Q) (st : scan_state) : scan_state :=
  mkState (full_text st) (csr_spend st) (renewable_energy st) v
          (ghg_emissions st) (csr_snippet st) (renew_snippet st).

Definition set_ghg (v : Q) (st : scan_state) : scan_state :=
  mkState (full_text st) (csr_spend st) (renewable_energy st) (total_energy st)
          v (csr_snippet st) (renew_snippet st).

(** Lines 100-104. *)
Definition scan_csr (t : text) (st : scan_state) : result scan_state :=
  if Qeq_bool (csr_spend st) 0 then
    match re_search IGNORECASE csr_re t with
    | Some csr_match =>
        v <- parse_group2 csr_match ;;
        Ok (set_csr v (group0 csr_match) st)
    | None => Ok st
    end
  else Ok st.

(** Lines 106-110. *)
Definition scan_renewable (t : text) (st : scan_state) : result scan_state :=
  if Qeq_bool (renewable_energy st) 0 then
    match re_search IGNORECASE ren_re t with
    | Some ren_match =>
        v <- parse_group2 ren_match ;;
        Ok (set_renewable v (group0 ren_match) st)
    | None => Ok st
    end
  else Ok st.

(** Lines 112-114. *)
Definition scan_total_energy (t : text) (st : scan_state) : result scan_state :=
  if Qeq_bool (total_energy st) 1 then
    match re_search IGNORECASE en_re t with
    | Some en_match =>
        v <- parse_group2 en_match ;;
        Ok (set_total_energy v st)
    | None => Ok st
    end
  else Ok st.

(** Lines 116-118. *)
Definition scan_ghg (t : text) (st : scan_state) : result scan_state :=
  if Qeq_bool (ghg_emissions st) 0 then
    match re_search IGNORECASE ghg_re t with
    | Some ghg_match =>
        v <- parse_group2 ghg_match ;;
        Ok (set_ghg v st)
    | None => Ok st
    end
  else Ok st.

(** The four searches on the text of one page, in the order of the code. *)
Definition scan_text (t : text) (st : scan_state) : result scan_state :=
  st <- scan_csr t st ;;
  st <- scan_renewable t st ;;
  st <- scan_total_energy t st ;;
  scan_ghg t st.

(** The body of the page loop (lines 96-118).  [full_text += text] raises
    TypeError when [text] is None: a str and None do not add. *)
Definition scan_page (p : page) (st : scan_state) : result scan_state :=
  t <- extract_text p ;;
  match t with
  | Some t => scan_text t (set_full_text (full_text st ++ t) st)
  | None => Raise TypeError
  end.

Fixpoint scan_pages (ps : list page) (st : scan_state) : result scan_state :=
  match ps with
  | [] => Ok st
  | p :: ps' => st' <- scan_page p st ;; scan_pages ps' st'
  end.

(** Lines 120-124. *)
Definition policy_found (p t : text) : bool :=
  match re_search IGNORECASE_DOTALL (policy_re p) t with
  | Some _ => true
  | None => false
  end.

Definition count_policies (t : text) : nat :=
  fold_left (fun policy_count p =>
               if policy_found p t then S policy_count else policy_count)
            policies 0%nat.

(* ================================================================== *)
(** * The batch (lines 38-155) *)
(* ================================================================== *)

(** Lines 48-74. *)
Definition name_map : list (text * text) :=
  [ (str "acc.pdf", str "ACC Limited");
    (str "adani green.pdf", str "Adani Green Energy Ltd.");
    (str "Adani power.pdf", str "Adani Power Ltd.");
    (str "ambuja.pdf", str "Ambuja Cements Ltd.");
    (str "BPCL.pdf", str "Bharat Petroleum Corporation Ltd.");
    (str "Hindalco.pdf", str "Hindalco Industries Ltd.");
    (str "HPCL.pdf", str "Hindustan Petroleum Corp. Ltd.");
    (str "IOCL.pdf", str "Indian Oil Corporation Ltd.");
    (str "Jindal Steel.pdf", str "Jindal Steel & Power Ltd.");
    (str "Jsw energy.pdf", str "JSW Energy Ltd.");
    (str "Jsw Steel.pdf", str "JSW Steel Ltd.");
    (str "Nacl.pdf", str "National Aluminium Company Ltd.");
    (str "Nhpc.pdf", str "NHPC Limited");
    (str "Nmdc.pdf", str "NMDC Limited");
    (str "NTPC.pdf", str "NTPC Limited");
    (str "oil india.pdf", str "Oil India Limited");
    (str "Ongc.pdf", str "Oil and Natural Gas Corporation");
    (str "Reliance.pdf", str "Reliance Industries Ltd.");
    (str "SAIL.pdf", str "Steel Authority of India Ltd.");
    (str "Shree cement.pdf", str "Shree Cement Ltd.");
    (str "Sjvn.pdf", str "SJVN Limited");
    (str "Tata power.pdf", str "Tata Power Company Ltd.");
    (str "Tata Steel.pdf", str "Tata Steel Ltd.");
    (str "Ultratech.pdf", str "UltraTech Cement Ltd.");
    (str "Vedanta.pdf", str "Vedanta Limited") ].

(** [d.get(key)] on a dict written as its list of items (the keys of
    [name_map] are distinct). *)
Fixpoint dict_get (key : text) (d : list (text * text)) : option text :=
  match d with
  | [] => None
  | (k, v) :: d' => if text_eqb k key then Some v else dict_get key d'
  end.

(** Line 77. *)
Definition company_name (filename : text) : text :=
  match dict_get filename name_map with
  | Some formal => formal
  | None =>
      py_title (py_replace (str "_") (str " ")
                  (py_replace (str ".pdf") (str "") filename))
  end.

(** A row of the result (lines 138-150). *)
Record doc_record := mkRecord {
  Company : text;
  Risk_Score : Q;
  Talk_Score : Q;
  Walk_Score : Q;
  CSR_Spend : Q;
  Renewable_Energy : Q;
  Total_Energy : Q;
  GHG_Scope_1 : Q;
  Policies : nat;
  CSR_Evidence : text;
  Renewable_Evidence : text
}.

(** What [pdfplumber.open(path)] finds. *)
Inductive pdf_file :=
| Unreadable                   (* open raises *)
| Pdf (pages : list page).

(** Lines 120-150: the record of a document whose scan ended in [st]. *)
Definition make_record (name : text) (st : scan_state) : doc_record :=
  let policy_count := count_policies (full_text st) in
  let sc := scoring policy_count (csr_spend st) (renewable_energy st)
                    (total_energy st) in
  mkRecord name
           (py_round1 (risk_score sc)) (py_round1 (talk_score sc))
           (py_round1 (walk_score sc))
           (csr_spend st) (renewable_energy st) (total_energy st)
           (ghg_emissions st) policy_count
           (csr_snippet st) (renew_snippet st).

(** The body of the [try] (lines 93-150) for one file. *)
Definition process_file (filename : text) (f : pdf_file) : result doc_record :=
  match f with
  | Unreadable => Raise PdfError
  | Pdf pages =>
      st <- scan_pages (firstn 10 pages) init_state ;;
      Ok (make_record (company_name filename) st)
  end.

(** One turn of the file loop: the record is appended, or the exception is
    caught and the loop goes on ([except Exception: continue]). *)
Definition file_turn (data : list doc_record) (entry : text * pdf_file)
  : list doc_record :=
  match process_file (fst entry) (snd entry) with
  | Ok r => data ++ [r]
  | Raise _ => data
  end.

(** [process_pdfs(folder_path)].  The folder is [None] when the path does
    not exist, else its entries in listing order, each with what opening it
    gives. *)
Definition process_pdfs (folder : option (list (text * pdf_file)))
  : list doc_record :=
  match folder with
  | None => []
  | Some entries =>
      let files := filter (fun e => ends_with (str ".pdf") (fst e)) entries in
      fold_left file_turn files []
  end.

(** The records of one entry: one, or none when its pipeline raises. *)
Definition records_of (entry : text * pdf_file) : list doc_record :=
  match process_file (fst entry) (snd entry) with
  | Ok r => [r]
  | Raise _ => []
  end.

(* ================================================================== *)
(** * The four fields, as one view on the scan *)
(* ================================================================== *)

(** The four blocks of lines 100-118 differ in their pattern, their
    variable, the default that guards them and whether they keep the
    matched text.  The statements below range over them through [field]. *)
Inductive field := F_csr | F_renewable | F_total_energy | F_ghg.

Definition field_re_of (f : field) : regex :=
  match f with
  | F_csr => csr_re
  | F_renewable => ren_re
  | F_total_energy => en_re
  | F_ghg => ghg_re
  end.

(** The value the variable starts with, which is also the value its guard
    compares it with. *)
Definition field_default (f : field) : Q :=
  match f with
  | F_total_energy => 1
  | _ => 0
  end.

Definition field_value (f : field) (st : scan_state) : Q :=
  match f with
  | F_csr => csr_spend st
  | F_renewable => renewable_energy st
  | F_total_energy => total_energy st
  | F_ghg => ghg_emissions st
  end.

(** The evidence snippet of a field that keeps one. *)
Definition field_evidence (f : field) (st : scan_state) : option text :=
  match f with
  | F_csr => Some (csr_snippet st)
  | F_renewable => Some (renew_snippet st)
  | _ => None
  end.

(** What a match leaves as evidence. *)
Definition match_evidence (f : field) (m : match_obj) : option text :=
  match f with
  | F_csr | F_renewable => Some (group0 m)
  | _ => None
  end.

(** The guard of a block: the variable still equals its default. *)
Definition field_guard (f : field) (st : scan_state) : bool :=
  Qeq_bool (field_value f st) (field_default f).

Definition field_search (f : field) (t : text) : option match_obj :=
  re_search IGNORECASE (field_re_of f) t.

(** What a block does to its own variable and snippet. *)
Definition field_after (f : field) (t : text) (st : scan_state)
  : result (Q * option text) :=
  if field_guard f st then
    match field_search f t with
    | Some m => v <- parse_group2 m ;; Ok (v, match_evidence f m)
    | None => Ok (field_value f st, field_evidence f st)
    end
  else Ok (field_value f st, field_evidence f st).

Definition record_value (f : field) (r : doc_record) : Q :=
  match f with
  | F_csr => CSR_Spend r
  | F_renewable => Renewable_Energy r
  | F_total_energy => Total_Energy r
  | F_ghg => GHG_Scope_1 r
  end.

Definition record_evidence (f : field) (r : doc_record) : option text :=
  match f with
  | F_csr => Some (CSR_Evidence r)
  | F_renewable => Some (Renewable_Evidence r)
  | _ => None
  end.

(* ================================================================== *)
(** * What a pattern matches, declaratively *)
(* ================================================================== *)

(** [reps fl a s s']: [s'] is [s] less a run of characters that [a] accepts. *)
Inductive reps (fl : flags) (a : atom) : text -> text -> Prop :=
| reps_nil (s : text) : reps fl a s s
| reps_cons (c : ascii) (s s' : text) :
    accepts fl a c = true -> reps fl a s s' -> reps fl a (c :: s) s'.

(** [matches fl r s s']: [r] can consume a prefix of [s] and leave [s'].
    The matcher [exec] explores these possibilities in Python's order. *)
Inductive matches (fl : flags) : regex -> text -> text -> Prop :=
| m_eps (s : text) : matches fl Eps s s
| m_atom (a : atom) (c : ascii) (s : text) :
    accepts fl a c = true -> matches fl (Atom a) (c :: s) s
| m_seq (r1 r2 : regex) (s s1 s2 : text) :
    matches fl r1 s s1 -> matches fl r2 s1 s2 -> matches fl (Seq r1 r2) s s2
| m_alt_l (r1 r2 : regex) (s s' : text) :
    matches fl r1 s s' -> matches fl (Alt r1 r2) s s'
| m_alt_r (r1 r2 : regex) (s s' : text) :
    matches fl r2 s s' -> matches fl (Alt r1 r2) s s'
| m_group (n : nat) (r : regex) (s s' : text) :
    matches fl r s s' -> matches fl (Group n r) s s'
| m_star (a : atom) (s s' : text) :
    reps fl a s s' -> matches fl (Star a) s s'
| m_star_lazy (a : atom) (s s' : text) :
    reps fl a s s' -> matches fl (StarLazy a) s s'
| m_plus (a : atom) (c : ascii) (s s' : text) :
    accepts fl a c = true -> reps fl a s s' -> matches fl (Plus a) (c :: s) s'
| m_opt_none (a : atom) (s : text) : matches fl (Opt a) s s
| m_opt_some (a : atom) (c : ascii) (s : text) :
    accepts fl a c = true -> matches fl (Opt a) (c :: s) s.

(** No item of the pattern accepts a line break. *)
Fixpoint within_line (fl : flags) (r : regex) : bool :=
  match r with
  | Eps => true
  | Atom a | Star a | StarLazy a | Plus a | Opt a => negb (accepts fl a newline)
  | Seq r1 r2 | Alt r1 r2 => within_line fl r1 && within_line fl r2
  | Group _ r => within_line fl r
  end.

(** The two phrases of each field pattern. *)
Definition field_primary (f : field) : text :=
  match f with
  | F_csr => str "Community Spending"
  | F_renewable => str "Renewable Energy Use"
  | F_total_energy => str "Total Energy Consumption"
  | F_ghg => str "GHG Scope 1"
  end.

Definition field_fallback (f : field) : text :=
  match f with
  | F_csr => str "CSR Expenditure"
  | F_renewable => str "Renewable Energy"
  | F_total_energy => str "Energy Consumption"
  | F_ghg => str "Scope 1 Emissions"
  end.

(** [lab] is one of the two phrases of the field, up to case. *)
Definition is_label (f : field) (lab : text) : Prop :=
  text_eqb_ci (field_primary f) lab = true
  \/ text_eqb_ci (field_fallback f) lab = true.

(** A character that can open the number group: a digit or a comma. *)
Definition opens_number (c : ascii) : bool :=
  is_digit c || Ascii.eqb ","%char c.

(** The text shows a label and, further on the same line, a character that
    opens a number. *)
Definition label_then_number_on_line (f : field) (t : text) : Prop :=
  exists pre lab gap d post,
    t = pre ++ lab ++ gap ++ d :: post
    /\ is_label f lab
    /\ ~ In newline gap
    /\ opens_number d = true.

(** The text shows the policy name and, anywhere after it, "Yes", both up
    to case. *)
Definition affirmed (p t : text) : Prop :=
  exists pre name gap yes post,
    t = pre ++ name ++ gap ++ yes ++ post
    /\ text_eqb_ci p name = true
    /\ text_eqb_ci (str "Yes") yes = true.

(* ================================================================== *)
(** * The display name, as the specification words it *)
(* ================================================================== *)

(** The file name without its extension; the batch only lists names that
    end in ".pdf". *)
Definition remove_extension (filename : text) : text :=
  if ends_with (str ".pdf") filename
  then firstn (length filename - 4) filename
  else filename.

(** The formal name of the table for a file name that is one of its keys;
    else the file name without its extension, underscores turned into
    blanks, in title case. *)
Definition spec_company_name (filename : text) : text :=
  match dict_get filename name_map with
  | Some formal => formal
  | None => py_title (py_replace (str "_") (str " ") (remove_extension filename))
  end.

(* ================================================================== *)
(** * The dashboard's reading of the result (lines 165-193) *)
(* ================================================================== *)

(** [series.unique()]: the values in the order of their first appearance. *)
Fixpoint unique (names : list text) : list text :=
  match names with
  | [] => []
  | n :: rest => n :: filter (fun x => negb (text_eqb n x)) (unique rest)
  end.

(** Line 173: the companies the selector offers, [df['Company'].unique()]. *)
Definition company_options (df : list doc_record) : list text :=
  unique (map Company df).

(** Line 175: [df[df['Company'] == selected_company].iloc[0]], the first
    row of the selected company; [None] is the IndexError of [iloc[0]] on
    an empty selection. *)
Definition comp_data (df : list doc_record) (selected_company : text)
  : option doc_record :=
  find (fun r => text_eqb (Company r) selected_company) df.

(** [int(x)] on a float: the integer part, towards zero. *)
Definition py_int (x : Q) : Z :=
  if Qle_bool 0 x then Qfloor x else Qceiling x.

(** Line 193: the value handed to the progress bar,
    [int(comp_data['Talk Score'])]. *)
Definition progress_value (r : doc_record) : Z := py_int (Talk_Score r).

(** The first character of a text is a digit. *)
Definition head_is_digit (s : text) : bool :=
  match s with
  | c :: _ => is_digit c
  | [] => false
  end.

(** The value [v] and the evidence [ev] of a field are the initial ones,
    or they are read off one match of the field's pattern on one of the
    pages. *)
Definition comes_from (f : field) (pages : list page) (v : Q) (ev : option text)
  : Prop :=
  (v = field_default f /\ ev = field_evidence f init_state)
  \/ exists t m, In (PageText t) pages
                 /\ field_search f t = Some m
                 /\ parse_group2 m = Ok v
                 /\ ev = match_evidence f m.

(** A label and, on its line, the start of a number open the text [s]. *)
Definition label_then_number_here (f : field) (s : text) : Prop :=
  exists lab gap d post,
    s = lab ++ gap ++ d :: post
    /\ is_label f lab
    /\ ~ In newline gap
    /\ opens_number d = true.

(* ================================================================== *)
(** * The scores on binary64 floats (lines 103-142) *)
(* ================================================================== *)

(** The sections above read Python's floats as exact rationals.  Here the
    same lines are read on IEEE binary64 values, with their rounding, their
    infinities and their NaN: the kernel's primitive floats. *)

(** The double nearest to [n / 10^k], ties to even, infinity on overflow:
    what [float] makes of [n] written in decimal with [k] digits after the
    point. *)
Definition float_of_decimal (n : Z) (k : nat) : PrimFloat.float :=
  match n with
  | Zpos p =>
      FloatOps.SF2Prim
        (SpecFloat.SFdiv FloatOps.prec FloatOps.emax
           (SpecFloat.S754_finite false p 0)
           (SpecFloat.S754_finite false (Z.to_pos (10 ^ Z.of_nat k)) 0))
  | _ => PrimFloat.zero
  end.

(** [float(s)], as [py_float], with its value as a double. *)
Definition py_float64 (s : text) : result PrimFloat.float :=
  let (ip, rest) := span_digits s in
  match rest with
  | [] =>
      match ip with
      | [] => Raise ValueError
      | _ :: _ => Ok (float_of_decimal (digits_val 0 ip) 0)
      end
  | c :: fr =>
      if Ascii.eqb c "."%char && forallb is_digit fr
         && negb (Nat.eqb (length ip + length fr) 0)
      then Ok (float_of_decimal (digits_val 0 (ip ++ fr)) (length fr))
      else Raise ValueError
  end.

(** [float(m.group(2).replace(',', ''))] as a double. *)
Definition parse_group2_64 (m : match_obj) : result PrimFloat.float :=
  py_float64 (py_replace (str ",") (str "") (group m 2)).

(** An [int] as a float, as in [policy_count / len(policies)]. *)
Definition float_of_nat (n : nat) : PrimFloat.float :=
  float_of_decimal (Z.of_nat n) 0.

(** Python's [min(a, b)] on floats: [b] when [b < a], else [a]. *)
Definition py_min64 (a b : PrimFloat.float) : PrimFloat.float :=
  if PrimFloat.ltb b a then b else a.

Record scores64 := mkScores64 {
  talk_score64 : PrimFloat.float;
  walk_score64 : PrimFloat.float;
  risk_score64 : PrimFloat.float
}.

(** Lines 126-136 on doubles. *)
Definition scoring64 (policy_count : nat)
           (csr_spend renewable_energy total_energy : PrimFloat.float) : scores64 :=
  let talk_score :=
    (float_of_nat policy_count / float_of_nat (length policies) * 100)%float in
  let renew_mix :=
    if (10 <? total_energy)%float
    then (renewable_energy / total_energy * 100)%float
    else 0%float in
  let csr_score := py_min64 (csr_spend / 500 * 50)%float 50%float in
  let walk_score := (renew_mix + csr_score)%float in
  let walk_score := if (100 <? walk_score)%float then 100%float else walk_score in
  let risk_score := (talk_score - walk_score)%float in
  let risk_score := if (risk_score <? 0)%float then 0%float else risk_score in
  mkScores64 talk_score walk_score risk_score.

(** The exact value of a finite double. *)
Definition Q_of_float (x : PrimFloat.float) : Q :=
  match FloatOps.Prim2SF x with
  | SpecFloat.S754_finite s m e =>
      ((if s then -1 else 1) * inject_Z (Zpos m) * Qpower 2 e)%Q
  | _ => 0%Q
  end.

(** [round(x, 1)] on a double: NaN and the infinities round to themselves;
    a finite [x] gives the double nearest to the tenth nearest to the exact
    value of [x], a tie going to the even tenth. *)
Definition py_round1_64 (x : PrimFloat.float) : PrimFloat.float :=
  if PrimFloat.is_nan x || PrimFloat.is_infinity x then x
  else
    match round_half_even (Q_of_float x * 10) with
    | Zneg p => PrimFloat.opp (float_of_decimal (Zpos p) 1)
    | n => float_of_decimal n 1
    end.

(** The three scores as the record stores them (lines 140-142). *)
Definition rounded64 (s : scores64) : scores64 :=
  mkScores64 (py_round1_64 (talk_score64 s)) (py_round1_64 (walk_score64 s))
             (py_round1_64 (risk_score64 s)).

(** A score lies between 0 and 100. *)
Definition in_range64 (x : PrimFloat.float) : bool :=
  PrimFloat.leb 0%float x && PrimFloat.leb x 100%float.

(* ================================================================== *)
(** * Properties of the scoring engine *)
(* ================================================================== *)

Unset Implicit Arguments.

Section ScoringFacts.

Open Scope Q_scope.

Lemma Qltb_compare (a b : Q) : Qltb a b = true <-> Qcompare a b = Lt.
Proof.
  unfold Qltb, Qle_bool, Qcompare.
  destruct (Z.leb_spec (Qnum b * QDen a) (Qnum a * QDen b)) as [H | H]; cbn [negb].
  - split; [discriminate |].
    intros C. rewrite Z.compare_lt_iff in C. lia.
  - split; [| reflexivity].
    intros _. rewrite Z.compare_lt_iff. exact H.
Qed.

Lemma Qltb_lt (a b : Q) : Qltb a b = true <-> a < b.
Proof. rewrite Qltb_compare. symmetry. apply Qlt_alt. Qed.

Lemma Qltb_ge (a b : Q) : Qltb a b = false <-> b <= a.
Proof.
  split; intros H.
  - apply Qnot_lt_le. intros L. apply Qltb_lt in L. congruence.
  - destruct (Qltb a b) eqn:E; [| reflexivity].
    apply Qltb_lt in E. exfalso. apply (Qlt_not_le _ _ E H).
Qed.

Lemma py_min_Qmin (a b : Q) : py_min a b = Qmin a b.
Proof.
  unfold py_min, Qmin, GenericMinMax.gmin.
  destruct (Qltb b a) eqn:E.
  - apply Qltb_lt in E. apply Qgt_alt in E. now rewrite E.
  - apply Qltb_ge in E. pose proof (proj1 (Qle_alt a b) E) as C.
    destruct (Qcompare a b); congruence.
Qed.

Lemma clamp_low_Qmax (x : Q) : (if Qltb x 0 then 0 else x) = Qmax x 0.
Proof.
  unfold Qmax, GenericMinMax.gmax.
  destruct (Qltb x 0) eqn:E.
  - apply Qltb_compare in E. now rewrite E.
  - destruct (Qcompare x 0) eqn:C; try reflexivity.
    apply Qltb_compare in C. congruence.
Qed.

Lemma clamp_high_Qmin (x : Q) : (if Qltb 100 x then 100 else x) = Qmin x 100.
Proof. exact (py_min_Qmin x 100). Qed.

Lemma renew_mix_spec (ren tot : Q) :
  (if Qltb 10 tot then ren / tot * 100 else 0) = Spec.renew_mix ren tot.
Proof.
  unfold Spec.renew_mix.
  destruct (Qltb 10 tot) eqn:E.
  - apply Qltb_compare in E. now rewrite E.
  - destruct (Qcompare 10 tot) eqn:C; try reflexivity.
    apply Qltb_compare in C. congruence.
Qed.

Lemma scoring_spec (pc : nat) (csr ren tot : Q) :
  scoring pc csr ren tot
  = mkScores (Spec.talk_score pc) (Spec.walk_score csr ren tot)
             (Spec.risk_score pc csr ren tot).
Proof.
  unfold scoring, Spec.risk_score, Spec.walk_score, Spec.csr_component.
  rewrite clamp_low_Qmax, clamp_high_Qmin, renew_mix_spec, py_min_Qmin.
  reflexivity.
Qed.

End ScoringFacts.

Section ScoreBounds.

Open Scope Q_scope.

Lemma talk_bounds (pc : nat) :
  (pc <= 5)%nat ->
  0 <= inject_Z (Z.of_nat pc) / 5 * 100 <= 100.
Proof.
  intros H.
  assert (L : 0 <= inject_Z (Z.of_nat pc)).
  { change 0 with (inject_Z 0). rewrite <- Zle_Qle. lia. }
  assert (U : inject_Z (Z.of_nat pc) <= 5).
  { change 5 with (inject_Z 5). rewrite <- Zle_Qle. lia. }
  assert (E : inject_Z (Z.of_nat pc) / 5 * 100 == inject_Z (Z.of_nat pc) * 20)
    by field.
  rewrite E. split; lra.
Qed.

Lemma tenth_mul (x : Q) : x / 10 == x * (1 # 10).
Proof. field. Qed.

Lemma csr_scale (x : Q) : x / 500 * 50 == x * (1 # 10).
Proof. field. Qed.

Lemma ratio_nonneg (a b : Q) : 0 <= a -> 0 < b -> 0 <= a / b * 100.
Proof.
  intros Ha Hb.
  apply Qmult_le_0_compat; [| lra].
  apply Qle_shift_div_l; [exact Hb | lra].
Qed.

(** The scores before rounding. *)
Lemma scoring_bounds (pc : nat) (csr ren tot : Q) :
  (pc <= 5)%nat -> 0 <= csr -> 0 <= ren ->
  let sc := scoring pc csr ren tot in
  0 <= talk_score sc <= 100 /\
  0 <= walk_score sc <= 100 /\
  0 <= risk_score sc <= 100.
Proof.
  intros Hpc Hcsr Hren. unfold scoring. cbn [talk_score walk_score risk_score].
  change (inject_Z (Z.of_nat (length policies))) with 5.
  pose proof (talk_bounds pc Hpc) as [T0 T1].
  set (talk := inject_Z (Z.of_nat pc) / 5 * 100) in *.
  assert (M : 0 <= (if Qltb 10 tot then ren / tot * 100 else 0)).
  { destruct (Qltb 10 tot) eqn:E; [| lra].
    apply Qltb_lt in E. apply ratio_nonneg; lra. }
  set (mix := if Qltb 10 tot then ren / tot * 100 else 0) in *.
  assert (C : 0 <= py_min (csr / 500 * 50) 50).
  { unfold py_min. destruct (Qltb 50 (csr / 500 * 50)); [lra |].
    rewrite csr_scale. lra. }
  set (c := py_min (csr / 500 * 50) 50) in *.
  assert (W : 0 <= (if Qltb 100 (mix + c) then 100 else mix + c) <= 100).
  { destruct (Qltb 100 (mix + c)) eqn:E; [lra |].
    apply Qltb_ge in E. lra. }
  set (walk := if Qltb 100 (mix + c) then 100 else mix + c) in *.
  repeat split; try lra.
  - destruct (Qltb (talk - walk) 0) eqn:E; [lra |].
    apply Qltb_ge in E. exact E.
  - destruct (Qltb (talk - walk) 0); lra.
Qed.

Lemma Qfloor_bounds (y : Q) (n : Z) :
  0 <= y <= inject_Z n -> (0 <= Qfloor y <= n)%Z.
Proof.
  intros [L U]. split.
  - change 0%Z with (Qfloor 0). now apply Qfloor_resp_le.
  - rewrite <- (Qfloor_Z n). now apply Qfloor_resp_le.
Qed.

Lemma round_half_even_bounds (y : Q) (n : Z) :
  0 <= y <= inject_Z n -> (0 <= round_half_even y <= n)%Z.
Proof.
  intros H. pose proof (Qfloor_bounds y n H) as [F0 F1].
  unfold round_half_even.
  destruct (Z.eq_dec (Qfloor y) n) as [E | NE].
  - assert (Hy : y == inject_Z n).
    { apply Qle_antisym; [apply H |]. rewrite <- E. apply Qfloor_le. }
    assert (C : Qcompare (y - inject_Z (Qfloor y)) (1 # 2) = Lt).
    { rewrite <- Qlt_alt. rewrite E. rewrite Hy. unfold Qminus. rewrite Qplus_opp_r. reflexivity. }
    rewrite C. lia.
  - destruct (Qcompare (y - inject_Z (Qfloor y)) (1 # 2));
      try destruct (Z.even (Qfloor y)); lia.
Qed.

Lemma py_round1_bounds (x : Q) : 0 <= x <= 100 -> 0 <= py_round1 x <= 100.
Proof.
  intros [L U]. unfold py_round1.
  assert (H : 0 <= x * 10 <= inject_Z 1000).
  { change (inject_Z 1000) with 1000. split; lra. }
  apply round_half_even_bounds in H. destruct H as [H0 H1].
  rewrite Zle_Qle in H0, H1.
  change (inject_Z 0) with 0 in H0. change (inject_Z 1000) with 1000 in H1.
  rewrite tenth_mul. split; lra.
Qed.

(** Rounding to one decimal place: a multiple of a tenth, at most half a
    tenth away. *)
Lemma py_round1_tenth (x : Q) :
  exists n : Z, py_round1 x = inject_Z n / 10 /\ Qabs (py_round1 x - x) <= 1 # 20.
Proof.
  exists (round_half_even (x * 10)). split; [reflexivity |].
  unfold py_round1, round_half_even.
  pose proof (Qfloor_le (x * 10)) as F0.
  pose proof (Qlt_floor (x * 10)) as F1.
  rewrite inject_Z_plus in F1. change (inject_Z 1) with 1 in F1.
  apply Qabs_Qle_condition. rewrite tenth_mul.
  destruct (Qcompare_spec (x * 10 - inject_Z (Qfloor (x * 10))) (1 # 2)) as [E | E | E].
  - destruct (Z.even (Qfloor (x * 10)));
      [| rewrite inject_Z_plus; change (inject_Z 1) with 1]; split; lra.
  - split; lra.
  - rewrite inject_Z_plus. change (inject_Z 1) with 1. split; lra.
Qed.

End ScoreBounds.

(** C1: the scores are the specification's formulas of policy_count,
    csr_spend, renewable_energy and total_energy; the record stores each of
    them rounded to one decimal place; and the inputs 5, 500, 400, 1000 give
    walk 90, talk 100, risk 10. *)
Theorem C1_scoring_is_the_formula :
  (forall (pc : nat) (csr ren tot : Q),
      talk_score (scoring pc csr ren tot) = Spec.talk_score pc /\
      walk_score (scoring pc csr ren tot) = Spec.walk_score csr ren tot /\
      risk_score (scoring pc csr ren tot) = Spec.risk_score pc csr ren tot) /\
  (forall (name : text) (st : scan_state),
      let r := make_record name st in
      let sc := scoring (Policies r) (CSR_Spend r) (Renewable_Energy r)
                        (Total_Energy r) in
      Talk_Score r = py_round1 (talk_score sc) /\
      Walk_Score r = py_round1 (walk_score sc) /\
      Risk_Score r = py_round1 (risk_score sc)) /\
  (forall x : Q,
      exists n : Z, py_round1 x = (inject_Z n / 10)%Q
                    /\ (Qabs (py_round1 x - x) <= 1 # 20)%Q) /\
  (let sc := scoring 5 500 400 1000 in
   (walk_score sc == 90)%Q /\ (talk_score sc == 100)%Q /\ (risk_score sc == 10)%Q /\
   (walk_score (rounded sc) == 90)%Q /\ (talk_score (rounded sc) == 100)%Q /\
   (risk_score (rounded sc) == 10)%Q).
Proof.
  split; [| split; [| split]].
  - intros pc csr ren tot. rewrite scoring_spec. auto.
  - intros name st. cbn. auto.
  - exact py_round1_tenth.
  - cbv zeta. repeat split; vm_compute; reflexivity.
Qed.

(* ================================================================== *)
(** * Properties of the scan *)
(* ================================================================== *)

Section ScanFacts.

Ltac scan_simpl :=
  cbn [bind field_value field_default field_re_of field_evidence match_evidence
       full_text csr_spend renewable_energy total_energy ghg_emissions
       csr_snippet renew_snippet
       set_csr set_renewable set_total_energy set_ghg set_full_text] in *.

Ltac scan_case :=
  match goal with
  | |- context [if Qeq_bool ?a ?b then _ else _] => destruct (Qeq_bool a b) eqn:?
  | |- context [match re_search ?fl ?r ?t with _ => _ end] =>
      destruct (re_search fl r t) eqn:?
  | |- context [bind (parse_group2 ?m) _] => destruct (parse_group2 m) eqn:?
  end; scan_simpl.

Ltac scan_crush :=
  unfold scan_text, scan_csr, scan_renewable, scan_total_energy, scan_ghg,
         field_after, field_guard, field_search;
  scan_simpl; repeat scan_case; try congruence.

(** Each block acts on its own variable and snippet as [field_after] says,
    whatever the other three blocks do. *)
Lemma scan_text_field (f : field) (t : text) (st st' : scan_state) :
  scan_text t st = Ok st' ->
  field_after f t st = Ok (field_value f st', field_evidence f st').
Proof.
  destruct f; scan_crush; intros H; inversion H; subst; reflexivity.
Qed.

Lemma py_float_raises (s : text) (e : exn) : py_float s = Raise e -> e = ValueError.
Proof.
  unfold py_float. destruct (span_digits s) as [ip rest].
  destruct rest as [| c fr].
  - destruct ip; congruence.
  - destruct (_ && _); congruence.
Qed.

Lemma parse_group2_raises (m : match_obj) (e : exn) :
  parse_group2 m = Raise e -> e = ValueError.
Proof. apply py_float_raises. Qed.

Ltac only_value_error :=
  repeat match goal with
    | H : parse_group2 _ = Raise ?e |- _ =>
        apply parse_group2_raises in H; subst e
    end.

(** A block that raises makes the whole page raise. *)
Lemma scan_text_raises (f : field) (t : text) (st : scan_state) (e : exn) :
  field_after f t st = Raise e ->
  scan_text t st = Raise ValueError.
Proof.
  destruct f; scan_crush; only_value_error; congruence.
Qed.

(** The page loop raises nothing but ValueError on text. *)
Lemma scan_text_raise_kind (t : text) (st : scan_state) (e : exn) :
  scan_text t st = Raise e -> e = ValueError.
Proof.
  scan_crush; only_value_error; congruence.
Qed.

Lemma scan_text_full_text (t : text) (st st' : scan_state) :
  scan_text t st = Ok st' -> full_text st' = full_text st.
Proof.
  scan_crush; intros H; inversion H; subst; reflexivity.
Qed.

Lemma field_after_set_full_text (f : field) (t x : text) (st : scan_state) :
  field_after f t (set_full_text x st) = field_after f t st.
Proof. destruct f; reflexivity. Qed.

(** A page that scans without an exception carries text, and each field
    moves as [field_after] says. *)
Lemma scan_page_field (f : field) (p : page) (st st' : scan_state) :
  scan_page p st = Ok st' ->
  exists t, p = PageText t
            /\ field_after f t st = Ok (field_value f st', field_evidence f st').
Proof.
  destruct p as [t | |]; cbn; try discriminate.
  intros H. exists t. split; [reflexivity |].
  rewrite <- (field_after_set_full_text f t (full_text st ++ t) st).
  now apply scan_text_field.
Qed.

Lemma scan_pages_app (ps1 ps2 : list page) (st : scan_state) :
  scan_pages (ps1 ++ ps2) st
  = (st1 <- scan_pages ps1 st ;; scan_pages ps2 st1).
Proof.
  revert st. induction ps1 as [| p ps1 IH]; intros st; cbn; [reflexivity |].
  destruct (scan_page p st); cbn; [apply IH | reflexivity].
Qed.

(** Once the variable of a field differs from its default, no later page
    touches the variable or the snippet. *)
Lemma scan_pages_skip (f : field) (ps : list page) (st st' : scan_state) :
  field_guard f st = false ->
  scan_pages ps st = Ok st' ->
  field_value f st' = field_value f st /\ field_evidence f st' = field_evidence f st.
Proof.
  revert st. induction ps as [| p ps IH]; intros st G H; cbn in H.
  - inversion H; subst. auto.
  - destruct (scan_page p st) as [st1 |] eqn:E; cbn in H; [| discriminate].
    destruct (scan_page_field f _ _ _ E) as (t & _ & A).
    unfold field_after in A. rewrite G in A. inversion A as [[V Ev]].
    assert (G1 : field_guard f st1 = false).
    { unfold field_guard in *. now rewrite <- V. }
    destruct (IH st1 G1 H) as [V' Ev']. split; congruence.
Qed.

(** Pages on which the pattern of a field finds nothing leave the field as
    it is. *)
Lemma scan_pages_no_match (f : field) (ps : list page) (st st' : scan_state) :
  (forall t, In (PageText t) ps -> field_search f t = None) ->
  scan_pages ps st = Ok st' ->
  field_value f st' = field_value f st /\ field_evidence f st' = field_evidence f st.
Proof.
  revert st. induction ps as [| p ps IH]; intros st N H; cbn in H.
  - inversion H; subst. auto.
  - destruct (scan_page p st) as [st1 |] eqn:E; cbn in H; [| discriminate].
    destruct (scan_page_field f _ _ _ E) as (t & -> & A).
    unfold field_after in A. rewrite (N t (or_introl eq_refl)) in A.
    assert (A' : Ok (field_value f st, field_evidence f st)
                 = Ok (field_value f st1, field_evidence f st1)).
    { destruct (field_guard f st); exact A. }
    inversion A' as [[V Ev]].
    destruct (IH st1 (fun t' I => N t' (or_intror I)) H) as [V' Ev'].
    split; congruence.
Qed.

(** Pages whose matches all read the default leave the guard open. *)
Lemma scan_pages_still_default (f : field) (ps : list page) (st st' : scan_state) :
  (forall t m v, In (PageText t) ps -> field_search f t = Some m ->
                 parse_group2 m = Ok v -> (v == field_default f)%Q) ->
  field_guard f st = true ->
  scan_pages ps st = Ok st' ->
  field_guard f st' = true.
Proof.
  revert st. induction ps as [| p ps IH]; intros st D G H; cbn in H.
  - inversion H; subst. exact G.
  - destruct (scan_page p st) as [st1 |] eqn:E; cbn in H; [| discriminate].
    destruct (scan_page_field f _ _ _ E) as (t & -> & A).
    apply (IH st1); [intros; eapply D; eauto; now right | | exact H].
    unfold field_after in A. rewrite G in A.
    destruct (field_search f t) as [m |] eqn:S.
    + destruct (parse_group2 m) as [v |] eqn:P; cbn in A; [| discriminate].
      inversion A as [[V Ev]]. unfold field_guard. rewrite <- V.
      apply Qeq_bool_iff. exact (D t m v (or_introl eq_refl) S P).
    + inversion A as [[V Ev]]. unfold field_guard in *. now rewrite <- V.
Qed.

(** The first page whose match reads something else than the default
    decides the field. *)
Lemma scan_pages_decisive (f : field) (ps1 ps2 : list page) (t : text)
      (m : match_obj) (v : Q) (st st' : scan_state) :
  (forall t1 m1 v1, In (PageText t1) ps1 -> field_search f t1 = Some m1 ->
                    parse_group2 m1 = Ok v1 -> (v1 == field_default f)%Q) ->
  field_guard f st = true ->
  field_search f t = Some m ->
  parse_group2 m = Ok v ->
  ~ (v == field_default f)%Q ->
  scan_pages (ps1 ++ PageText t :: ps2) st = Ok st' ->
  field_value f st' = v /\ field_evidence f st' = match_evidence f m.
Proof.
  intros D G S P NV H. rewrite scan_pages_app in H.
  destruct (scan_pages ps1 st) as [st1 |] eqn:E1; cbn [bind] in H; [| discriminate].
  pose proof (scan_pages_still_default f ps1 st st1 D G E1) as G1.
  cbn [scan_pages] in H.
  destruct (scan_page (PageText t) st1) as [st2 |] eqn:E2; cbn [bind] in H;
    [| discriminate].
  destruct (scan_page_field f _ _ _ E2) as (t' & Et & A).
  inversion Et; subst t'.
  unfold field_after in A. rewrite G1, S, P in A. cbn in A.
  inversion A as [[V Ev]].
  assert (G2 : field_guard f st2 = false).
  { unfold field_guard. rewrite <- V.
    destruct (Qeq_bool v (field_default f)) eqn:Q; [| reflexivity].
    apply Qeq_bool_iff in Q. contradiction. }
  destruct (scan_pages_skip f ps2 st2 st' G2 H) as [V' Ev']. split; congruence.
Qed.

Lemma process_file_ok (name : text) (pages : list page) (r : doc_record) :
  process_file name (Pdf pages) = Ok r ->
  exists st, scan_pages (firstn 10 pages) init_state = Ok st
             /\ r = make_record (company_name name) st.
Proof.
  unfold process_file.
  destruct (scan_pages (firstn 10 pages) init_state) as [st |]; cbn [bind];
    [| discriminate].
  intros H. inversion H. eauto.
Qed.

Lemma record_field (f : field) (name : text) (st : scan_state) :
  record_value f (make_record name st) = field_value f st
  /\ record_evidence f (make_record name st) = field_evidence f st.
Proof. destruct f; split; reflexivity. Qed.

End ScanFacts.

(* ================================================================== *)
(** * Properties of the batch and of failing documents *)
(* ================================================================== *)

Section BatchFacts.

Lemma fold_file_turn (files : list (text * pdf_file)) (data : list doc_record) :
  fold_left file_turn files data = data ++ flat_map records_of files.
Proof.
  revert data. induction files as [| e files IH]; intros data; cbn [fold_left flat_map].
  - now rewrite app_nil_r.
  - rewrite IH. unfold file_turn, records_of.
    destruct (process_file (fst e) (snd e)); [now rewrite <- app_assoc | reflexivity].
Qed.

Lemma process_pdfs_flat_map (entries : list (text * pdf_file)) :
  process_pdfs (Some entries)
  = flat_map records_of (filter (fun e => ends_with (str ".pdf") (fst e)) entries).
Proof. unfold process_pdfs. now rewrite fold_file_turn. Qed.

(** A file whose pipeline raises leaves the batch as if it were absent. *)
Lemma batch_skips_failure (before after : list (text * pdf_file))
      (name : text) (f : pdf_file) (e : exn) :
  process_file name f = Raise e ->
  process_pdfs (Some (before ++ (name, f) :: after))
  = process_pdfs (Some (before ++ after)).
Proof.
  intros H. rewrite !process_pdfs_flat_map, !filter_app, !flat_map_app.
  f_equal. cbn [filter fst].
  destruct (ends_with (str ".pdf") name); [| reflexivity].
  cbn [flat_map]. unfold records_of at 1. cbn [fst snd]. now rewrite H.
Qed.

Lemma scan_pages_raise_at (ps1 ps2 : list page) (p : page)
      (st st1 : scan_state) (e : exn) :
  scan_pages ps1 st = Ok st1 ->
  scan_page p st1 = Raise e ->
  scan_pages (ps1 ++ p :: ps2) st = Raise e.
Proof.
  intros H1 H2. rewrite scan_pages_app, H1. cbn [bind scan_pages].
  now rewrite H2.
Qed.

(** A page without text, or a corrupt one, stops the scan with an
    exception, whatever the pages before it did. *)
Lemma scan_pages_bad_page (p : page) (ps : list page) (st : scan_state) :
  p = PageNone \/ p = PageCorrupt ->
  In p ps ->
  exists e, scan_pages ps st = Raise e.
Proof.
  intros B. revert st. induction ps as [| q ps IH]; intros st I; [destruct I |].
  cbn [scan_pages].
  destruct (scan_page q st) as [st1 |] eqn:E; cbn [bind]; [| eauto].
  destruct I as [-> | I]; [| now apply IH].
  destruct B as [-> | ->]; discriminate.
Qed.

End BatchFacts.

(* ================================================================== *)
(** * What the scan can store *)
(* ================================================================== *)

Section StoredValues.

Open Scope Q_scope.

Lemma digit_val_nonneg (c : ascii) : (0 <= digit_val c)%Z.
Proof. unfold digit_val. lia. Qed.

Lemma digits_val_nonneg (s : text) (acc : Z) :
  (0 <= acc)%Z -> (0 <= digits_val acc s)%Z.
Proof.
  revert acc. induction s as [| c s IH]; intros acc H; cbn [digits_val]; [exact H |].
  apply IH. pose proof (digit_val_nonneg c). lia.
Qed.

Lemma py_float_nonneg (s : text) (v : Q) : py_float s = Ok v -> 0 <= v.
Proof.
  unfold py_float. destruct (span_digits s) as [ip rest].
  destruct rest as [| c fr].
  - destruct ip as [| d ip]; [discriminate |].
    intros H. inversion H.
    change 0 with (inject_Z 0). rewrite <- Zle_Qle.
    apply digits_val_nonneg, digit_val_nonneg.
  - destruct (_ && _); [| discriminate].
    intros H. inversion H.
    apply Qle_shift_div_l.
    + change 0 with (inject_Z 0). rewrite <- Zlt_Qlt.
      apply Z.pow_pos_nonneg; lia.
    + rewrite Qmult_0_l. change 0 with (inject_Z 0). rewrite <- Zle_Qle.
      apply digits_val_nonneg; lia.
Qed.

Lemma field_after_nonneg (f : field) (t : text) (st : scan_state)
      (v : Q) (ev : option text) :
  0 <= field_value f st ->
  field_after f t st = Ok (v, ev) ->
  0 <= v.
Proof.
  intros N. unfold field_after.
  destruct (field_guard f st); [| now intros H; inversion H; subst].
  destruct (field_search f t) as [m |]; [| now intros H; inversion H; subst].
  destruct (parse_group2 m) as [w |] eqn:P; cbn [bind]; [| discriminate].
  intros H. inversion H; subst. exact (py_float_nonneg _ _ P).
Qed.

(** Every number the scan holds is non-negative. *)
Lemma scan_pages_nonneg (ps : list page) (st st' : scan_state) :
  (forall f, 0 <= field_value f st) ->
  scan_pages ps st = Ok st' ->
  forall f, 0 <= field_value f st'.
Proof.
  revert st. induction ps as [| p ps IH]; intros st N H; cbn [scan_pages] in H.
  - inversion H; subst. exact N.
  - destruct (scan_page p st) as [st1 |] eqn:E; cbn [bind] in H; [| discriminate].
    apply (IH st1); [| exact H].
    intros f. destruct (scan_page_field f _ _ _ E) as (t & _ & A).
    exact (field_after_nonneg f t st _ _ (N f) A).
Qed.

Lemma init_state_nonneg (f : field) : 0 <= field_value f init_state.
Proof. destruct f; cbn; lra. Qed.

Lemma count_from_le (t : text) (l : list text) (n : nat) :
  (fold_left (fun policy_count p =>
                if policy_found p t then S policy_count else policy_count) l n
   <= n + length l)%nat.
Proof.
  revert n. induction l as [| p l IH]; intros n; cbn [fold_left length]; [lia |].
  destruct (policy_found p t); [specialize (IH (S n)) | specialize (IH n)]; lia.
Qed.

Lemma count_policies_le (t : text) : (count_policies t <= 5)%nat.
Proof. exact (count_from_le t policies 0). Qed.

End StoredValues.

(* ================================================================== *)
(** * The matcher finds what the pattern matches *)
(* ================================================================== *)

Section MatcherFacts.

Variable fl : flags.
Variable A : Type.

Lemma star_greedy_sound (a : atom) (k : cont A) (s : text) (caps : captures) (x : A) :
  star_greedy fl a k s caps = Some x ->
  exists s', reps fl a s s' /\ k s' caps = Some x.
Proof.
  induction s as [| c s IH]; cbn [star_greedy]; intros H.
  - exists []. split; [constructor | exact H].
  - destruct (accepts fl a c) eqn:Ac.
    + destruct (star_greedy fl a k s caps) as [y |] eqn:R.
      * inversion H; subst y. destruct (IH eq_refl) as (s' & Rp & K).
        exists s'. split; [now constructor | exact K].
      * exists (c :: s). split; [constructor | exact H].
    + exists (c :: s). split; [constructor | exact H].
Qed.

Lemma star_lazy_sound (a : atom) (k : cont A) (s : text) (caps : captures) (x : A) :
  star_lazy fl a k s caps = Some x ->
  exists s', reps fl a s s' /\ k s' caps = Some x.
Proof.
  induction s as [| c s IH]; cbn [star_lazy]; intros H.
  - destruct (k [] caps) as [y |] eqn:K; [| discriminate].
    exists []. split; [constructor | congruence].
  - destruct (k (c :: s) caps) as [y |] eqn:K.
    + exists (c :: s). split; [constructor | congruence].
    + destruct (accepts fl a c) eqn:Ac; [| discriminate].
      destruct (IH H) as (s' & Rp & K').
      exists s'. split; [now constructor | exact K'].
Qed.

Lemma star_greedy_complete (a : atom) (k : cont A) (s s' : text) (caps : captures) :
  reps fl a s s' ->
  k s' caps <> None ->
  star_greedy fl a k s caps <> None.
Proof.
  intros R K. induction R as [s | c s s' Ac R IH].
  - destruct s as [| c s]; cbn [star_greedy]; [exact K |].
    destruct (accepts fl a c); [| exact K].
    destruct (star_greedy fl a k s caps); [discriminate | exact K].
  - cbn [star_greedy]. rewrite Ac.
    destruct (star_greedy fl a k s caps); [discriminate |].
    exfalso. now apply (IH K).
Qed.

Lemma star_lazy_complete (a : atom) (k : cont A) (s s' : text) (caps : captures) :
  reps fl a s s' ->
  k s' caps <> None ->
  star_lazy fl a k s caps <> None.
Proof.
  intros R K. induction R as [s | c s s' Ac R IH].
  - destruct s as [| c s]; cbn [star_lazy];
      destruct (k _ caps); congruence.
  - cbn [star_lazy]. destruct (k (c :: s) caps); [discriminate |].
    rewrite Ac. now apply IH.
Qed.

(** What the matcher returns comes from a way the pattern matches. *)
Lemma exec_sound (r : regex) :
  forall (k : cont A) (s : text) (caps : captures) (x : A),
    exec fl r k s caps = Some x ->
    exists s' caps', matches fl r s s' /\ k s' caps' = Some x.
Proof.
  induction r as [| a | r1 IH1 r2 IH2 | r1 IH1 r2 IH2 | n r IH | a | a | a | a];
    intros k s caps x H; cbn [exec] in H.
  - exists s, caps. split; [constructor | exact H].
  - destruct s as [| c s]; [discriminate |].
    destruct (accepts fl a c) eqn:Ac; [| discriminate].
    exists s, caps. split; [now constructor | exact H].
  - destruct (IH1 _ _ _ _ H) as (s1 & caps1 & M1 & H1).
    destruct (IH2 _ _ _ _ H1) as (s2 & caps2 & M2 & H2).
    exists s2, caps2. split; [econstructor; eassumption | exact H2].
  - destruct (exec fl r1 k s caps) as [y |] eqn:E1.
    + inversion H; subst y.
      destruct (IH1 _ _ _ _ E1) as (s' & caps' & M & K).
      exists s', caps'. split; [now apply m_alt_l | exact K].
    + destruct (IH2 _ _ _ _ H) as (s' & caps' & M & K).
      exists s', caps'. split; [now apply m_alt_r | exact K].
  - destruct (IH _ _ _ _ H) as (s' & caps' & M & K).
    exists s', ((n, consumed s s') :: caps'). split; [now constructor | exact K].
  - destruct (star_greedy_sound _ _ _ _ _ H) as (s' & R & K).
    exists s', caps. split; [now constructor | exact K].
  - destruct (star_lazy_sound _ _ _ _ _ H) as (s' & R & K).
    exists s', caps. split; [now constructor | exact K].
  - destruct s as [| c s]; [discriminate |].
    destruct (accepts fl a c) eqn:Ac; [| discriminate].
    destruct (star_greedy_sound _ _ _ _ _ H) as (s' & R & K).
    exists s', caps. split; [now constructor | exact K].
  - destruct s as [| c s].
    + exists [], caps. split; [constructor | exact H].
    + destruct (accepts fl a c) eqn:Ac.
      * destruct (k s caps) as [y |] eqn:K.
        -- exists s, caps. split; [now constructor | congruence].
        -- exists (c :: s), caps. split; [constructor | exact H].
      * exists (c :: s), caps. split; [constructor | exact H].
Qed.

(** Whenever the pattern matches in a way the rest accepts, the matcher
    returns something. *)
Lemma exec_complete (r : regex) (s s' : text) :
  matches fl r s s' ->
  forall (k : cont A) (caps : captures),
    (forall caps', k s' caps' <> None) ->
    exec fl r k s caps <> None.
Proof.
  induction 1 as [s | a c s Ac | r1 r2 s s1 s2 _ IH1 _ IH2 | r1 r2 s s' _ IH
                 | r1 r2 s s' _ IH | n r s s' _ IH | a s s' R | a s s' R
                 | a c s s' Ac R | a s | a c s Ac];
    intros k caps K; cbn [exec].
  - apply K.
  - rewrite Ac. apply K.
  - apply IH1. intros caps1. now apply IH2.
  - destruct (exec fl r1 k s caps) eqn:E; [discriminate |].
    exfalso. now apply (IH k caps).
  - destruct (exec fl r1 k s caps); [discriminate | now apply IH].
  - apply IH. intros caps1. apply K.
  - eapply star_greedy_complete; eauto.
  - eapply star_lazy_complete; eauto.
  - rewrite Ac. eapply star_greedy_complete; eauto.
  - destruct s as [| c s]; [apply K |].
    destruct (accepts fl a c); [| apply K].
    destruct (k s caps); [discriminate | apply K].
  - rewrite Ac. destruct (k s caps) eqn:E; [discriminate |].
    exfalso. now apply (K caps).
Qed.

End MatcherFacts.

Section SearchFacts.

Variable fl : flags.

Lemma consumed_app (w s' : text) : consumed (w ++ s') s' = w.
Proof.
  unfold consumed. rewrite length_app, Nat.add_sub.
  induction w as [| c w IH]; cbn [length firstn app]; [reflexivity | now rewrite IH].
Qed.

Lemma reps_word (a : atom) (s s' : text) :
  reps fl a s s' -> exists w, s = w ++ s' /\ forallb (accepts fl a) w = true.
Proof.
  induction 1 as [s | c s s' Ac _ (w & -> & F)].
  - now exists [].
  - exists (c :: w). cbn [forallb]. now rewrite Ac, F.
Qed.

Lemma word_reps (a : atom) (w s' : text) :
  forallb (accepts fl a) w = true -> reps fl a (w ++ s') s'.
Proof.
  induction w as [| c w IH]; cbn [forallb app]; intros F; [constructor |].
  apply andb_true_iff in F as [Ac F]. constructor; auto.
Qed.

Lemma forallb_no_newline (a : atom) (w : text) :
  accepts fl a newline = false ->
  forallb (accepts fl a) w = true ->
  ~ In newline w.
Proof.
  intros N F I. rewrite forallb_forall in F. specialize (F _ I). congruence.
Qed.

(** A match is a prefix of the input; no line break lies in it when no
    item of the pattern accepts one. *)
Lemma matches_word (r : regex) (s s' : text) :
  matches fl r s s' ->
  exists w, s = w ++ s' /\ (within_line fl r = true -> ~ In newline w).
Proof.
  induction 1 as [s | a c s Ac | r1 r2 s s1 s2 _ (w1 & -> & N1) _ (w2 & -> & N2)
                 | r1 r2 s s' _ (w & -> & N) | r1 r2 s s' _ (w & -> & N)
                 | n r s s' _ (w & -> & N) | a s s' R | a s s' R
                 | a c s s' Ac R | a s | a c s Ac]; cbn [within_line].
  - exists []. split; [reflexivity | intros _ []].
  - exists [c]. split; [reflexivity |].
    intros W [E | []]. subst c. rewrite Ac in W. discriminate.
  - exists (w1 ++ w2). split; [now rewrite app_assoc |].
    intros W I. apply andb_true_iff in W as [W1 W2].
    apply in_app_or in I as [I | I]; [now apply N1 | now apply N2].
  - exists w. split; [reflexivity |].
    intros W. apply andb_true_iff in W as [W1 W2]. auto.
  - exists w. split; [reflexivity |].
    intros W. apply andb_true_iff in W as [W1 W2]. auto.
  - exists w. split; [reflexivity | exact N].
  - destruct (reps_word _ _ _ R) as (w & -> & F). exists w. split; [reflexivity |].
    intros W. apply (forallb_no_newline a); [now apply negb_true_iff | exact F].
  - destruct (reps_word _ _ _ R) as (w & -> & F). exists w. split; [reflexivity |].
    intros W. apply (forallb_no_newline a); [now apply negb_true_iff | exact F].
  - destruct (reps_word _ _ _ R) as (w & -> & F). exists (c :: w).
    split; [reflexivity |].
    intros W. apply (forallb_no_newline a); [now apply negb_true_iff |].
    cbn [forallb]. now rewrite Ac, F.
  - exists []. split; [reflexivity | intros _ []].
  - exists [c]. split; [reflexivity |].
    intros W [E | []]. subst c. rewrite Ac in W. discriminate.
Qed.

Lemma match_here_sound (r : regex) (s : text) (m : match_obj) :
  match_here fl r s = Some m ->
  exists s', matches fl r s s' /\ group0 m = consumed s s'.
Proof.
  unfold match_here. intros H.
  destruct (exec_sound fl _ r _ _ _ _ H) as (s' & caps' & M & K).
  exists s'. split; [exact M |]. inversion K. reflexivity.
Qed.

Lemma match_here_complete (r : regex) (s s' : text) :
  matches fl r s s' -> match_here fl r s <> None.
Proof.
  intros M. unfold match_here.
  apply (exec_complete fl _ r s s' M). discriminate.
Qed.

(** [re_search] answers with the match at some position of the text. *)
Lemma re_search_sound (r : regex) (t : text) (m : match_obj) :
  re_search fl r t = Some m ->
  exists pre s, t = pre ++ s /\ match_here fl r s = Some m.
Proof.
  induction t as [| c t IH]; cbn [re_search]; intros H.
  - destruct (match_here fl r []) eqn:E; [| discriminate].
    exists [], []. split; [reflexivity | congruence].
  - destruct (match_here fl r (c :: t)) eqn:E.
    + exists [], (c :: t). split; [reflexivity | congruence].
    + destruct (IH H) as (pre & s & -> & M).
      exists (c :: pre), s. split; [reflexivity | exact M].
Qed.

(** [re_search] finds a match as soon as some position has one. *)
Lemma re_search_complete (r : regex) (pre s : text) :
  match_here fl r s <> None -> re_search fl r (pre ++ s) <> None.
Proof.
  intros M. induction pre as [| c pre IH]; cbn [app].
  - destruct s; cbn [re_search]; destruct (match_here fl r _); congruence.
  - cbn [re_search]. destruct (match_here fl r (c :: pre ++ s)); [discriminate | exact IH].
Qed.

Lemma re_search_iff (r : regex) (t : text) :
  re_search fl r t <> None
  <-> exists pre s s', t = pre ++ s /\ matches fl r s s'.
Proof.
  split.
  - destruct (re_search fl r t) as [m |] eqn:E; [intros _ | congruence].
    destruct (re_search_sound r t m E) as (pre & s & -> & M).
    destruct (match_here_sound r s m M) as (s' & Ms & _).
    now exists pre, s, s'.
  - intros (pre & s & s' & -> & M).
    apply re_search_complete. now apply (match_here_complete r s s').
Qed.

Hypothesis fold_case : ignorecase fl = true.

Lemma matches_lit_inv (p : text) :
  forall s s', matches fl (lit p) s s' ->
               exists w, s = w ++ s' /\ text_eqb_ci p w = true.
Proof.
  induction p as [| x p IH]; intros s s' M; cbn [lit] in M.
  - inversion M; subst. now exists [].
  - inversion M as [| | r1 r2 s0 s1 s2 M1 M2 | | | | | | | |]; subst.
    inversion M1 as [| a c s0 Ac | | | | | | | | |]; subst.
    destruct (IH _ _ M2) as (w & -> & E).
    exists (c :: w). split; [reflexivity |].
    cbn [text_eqb_ci]. cbn [accepts] in Ac. rewrite fold_case in Ac.
    now rewrite Ac, E.
Qed.

Lemma matches_lit_intro (p : text) :
  forall w s', text_eqb_ci p w = true -> matches fl (lit p) (w ++ s') s'.
Proof.
  induction p as [| x p IH]; intros [| c w] s' E; cbn [text_eqb_ci] in E;
    try discriminate; cbn [lit app].
  - constructor.
  - apply andb_true_iff in E as [Ec E].
    apply m_seq with (s1 := w ++ s'); [| now apply IH].
    apply m_atom. cbn [accepts]. now rewrite fold_case.
Qed.

End SearchFacts.

(* ================================================================== *)
(** * The patterns of the code *)
(* ================================================================== *)

Section PatternFacts.

Lemma class_opens_number (fl : flags) (d : ascii) :
  accepts fl (Class [CDigit; CChar ","%char]) d = opens_number d.
Proof.
  unfold opens_number. cbn [accepts existsb item_accepts].
  now rewrite orb_false_r.
Qed.

(** The number group starts on a digit or a comma... *)
Lemma number_re_opens (fl : flags) (s s' : text) :
  matches fl number_re s s' ->
  exists d rest, s = d :: rest /\ opens_number d = true.
Proof.
  unfold number_re. intros M.
  inversion M as [| | r1 r2 s0 s1 s2 M1 M2 | | | | | | | |]; subst.
  inversion M1 as [| | | | | | | | a c s0 s3 Ac R | |]; subst.
  exists c, s0. split; [reflexivity |]. now rewrite <- (class_opens_number fl).
Qed.

(** ... and one such character is enough for it to match. *)
Lemma number_re_intro (fl : flags) (d : ascii) (post : text) :
  opens_number d = true -> matches fl number_re (d :: post) post.
Proof.
  intros O. unfold number_re.
  apply m_seq with (s1 := post).
  - apply m_plus; [now rewrite class_opens_number | apply reps_nil].
  - apply m_seq with (s1 := post); [apply m_opt_none | apply m_star, reps_nil].
Qed.

Lemma field_re_of_shape (f : field) :
  field_re_of f
  = Seq (Group 1 (Alt (lit (field_primary f)) (lit (field_fallback f))))
        (Seq (StarLazy Dot) (Group 2 number_re)).
Proof. destruct f; reflexivity. Qed.

Lemma field_re_within_line (f : field) :
  within_line IGNORECASE (field_re_of f) = true.
Proof. destruct f; vm_compute; reflexivity. Qed.

Lemma dot_stays_on_line (w : text) :
  forallb (accepts IGNORECASE Dot) w = true <-> ~ In newline w.
Proof.
  induction w as [| c w IH]; cbn [forallb In].
  - split; [intros _ [] | reflexivity].
  - rewrite andb_true_iff, IH. cbn [accepts dotall IGNORECASE orb].
    rewrite negb_true_iff. split.
    + intros [N F] [E | I]; [| contradiction].
      subst c. rewrite Ascii.eqb_refl in N. discriminate.
    + intros N. split; [| tauto].
      destruct (Ascii.eqb_spec c newline) as [-> | _]; [| reflexivity].
      exfalso. apply N. now left.
Qed.

(** What a field pattern matches at the start of a text. *)
Lemma field_re_matches (f : field) (s s' : text) :
  matches IGNORECASE (field_re_of f) s s'
  -> exists lab gap d rest,
      s = lab ++ gap ++ d :: rest
      /\ is_label f lab /\ ~ In newline gap /\ opens_number d = true.
Proof.
  rewrite field_re_of_shape. intros M.
  inversion M as [| | r1 r2 s0 s1 s2 M1 M2 | | | | | | | |]; subst.
  inversion M2 as [| | r1 r2 s0 s3 s2 M3 M4 | | | | | | | |]; subst.
  inversion M1 as [| | | | | n r s0 s2 ML | | | | |]; subst.
  inversion M3 as [| | | | | | | a s0 s2 R | | |]; subst.
  inversion M4 as [| | | | | n r s0 s2 MN | | | | |]; subst.
  destruct (reps_word _ _ _ _ R) as (gap & -> & F).
  destruct (number_re_opens _ _ _ MN) as (d & rest & -> & O).
  assert (L : exists lab, s = lab ++ gap ++ d :: rest /\ is_label f lab).
  { inversion ML as [| | | r1 r2 s0 s2 MP | r1 r2 s0 s2 MF | | | | | |]; subst.
    - destruct (matches_lit_inv IGNORECASE eq_refl _ _ _ MP) as (lab & -> & E).
      exists lab. split; [reflexivity | now left].
    - destruct (matches_lit_inv IGNORECASE eq_refl _ _ _ MF) as (lab & -> & E).
      exists lab. split; [reflexivity | now right]. }
  destruct L as (lab & -> & L).
  exists lab, gap, d, rest. repeat split; auto.
  now apply dot_stays_on_line.
Qed.

Lemma field_re_matches_intro (f : field) (lab gap : text) (d : ascii) (post : text) :
  is_label f lab -> ~ In newline gap -> opens_number d = true ->
  matches IGNORECASE (field_re_of f) (lab ++ gap ++ d :: post) post.
Proof.
  intros L N O. rewrite field_re_of_shape.
  apply m_seq with (s1 := gap ++ d :: post).
  - apply m_group. destruct L as [E | E].
    + apply m_alt_l. now apply matches_lit_intro.
    + apply m_alt_r. now apply matches_lit_intro.
  - apply m_seq with (s1 := d :: post).
    + apply m_star_lazy, word_reps. now apply dot_stays_on_line.
    + apply m_group. now apply number_re_intro.
Qed.

(** A field search succeeds exactly on the texts that show a label and,
    further on the same line, the start of a number. *)
Lemma field_search_iff (f : field) (t : text) :
  field_search f t <> None <-> label_then_number_on_line f t.
Proof.
  unfold field_search. rewrite re_search_iff. split.
  - intros (pre & s & s' & -> & M).
    destruct (field_re_matches f s s' M) as (lab & gap & d & rest & -> & L & N & O).
    now exists pre, lab, gap, d, rest.
  - intros (pre & lab & gap & d & post & -> & L & N & O).
    exists pre, (lab ++ gap ++ d :: post), post. split; [reflexivity |].
    now apply field_re_matches_intro.
Qed.

(** The matched text of a field search lies within one line. *)
Lemma field_search_within_line (f : field) (t : text) (m : match_obj) :
  field_search f t = Some m -> ~ In newline (group0 m).
Proof.
  unfold field_search. intros H.
  destruct (re_search_sound _ _ _ _ H) as (pre & s & -> & MH).
  destruct (match_here_sound _ _ _ _ MH) as (s' & M & G).
  destruct (matches_word _ _ _ _ M) as (w & -> & N).
  rewrite G, consumed_app. apply N, field_re_within_line.
Qed.

Lemma dotall_takes_all (w : text) :
  forallb (accepts IGNORECASE_DOTALL Dot) w = true.
Proof. induction w as [| c w IH]; [reflexivity | exact IH]. Qed.

(** The policy search succeeds exactly when the name, then "Yes", occur. *)
Lemma policy_found_iff (p t : text) : policy_found p t = true <-> affirmed p t.
Proof.
  unfold policy_found, affirmed.
  assert (S : re_search IGNORECASE_DOTALL (policy_re p) t <> None
              <-> policy_found p t = true).
  { unfold policy_found.
    destruct (re_search IGNORECASE_DOTALL (policy_re p) t); split; congruence. }
  unfold policy_found in S. rewrite <- S, re_search_iff. split.
  - intros (pre & s & s' & -> & M). unfold policy_re in M.
    inversion M as [| | r1 r2 s0 s1 s2 M1 M2 | | | | | | | |]; subst.
    inversion M2 as [| | r1 r2 s0 s3 s2 M3 M4 | | | | | | | |]; subst.
    inversion M3 as [| | | | | | | a s0 s2 R | | |]; subst.
    destruct (matches_lit_inv IGNORECASE_DOTALL eq_refl _ _ _ M1) as (name & -> & E1).
    destruct (reps_word _ _ _ _ R) as (gap & -> & _).
    destruct (matches_lit_inv IGNORECASE_DOTALL eq_refl (str "Yes") _ _ M4)
      as (yes & -> & E2).
    now exists pre, name, gap, yes, s'.
  - intros (pre & name & gap & yes & post & -> & E1 & E2).
    exists pre, (name ++ gap ++ yes ++ post), post. split; [reflexivity |].
    unfold policy_re.
    apply m_seq with (s1 := gap ++ yes ++ post); [now apply matches_lit_intro |].
    apply m_seq with (s1 := yes ++ post); [| now apply matches_lit_intro].
    apply m_star_lazy, word_reps, dotall_takes_all.
Qed.

End PatternFacts.

(* ================================================================== *)
(** * The number group and what [float] makes of it *)
(* ================================================================== *)

Section NumberGroup.

(** Group 2 of a field match is the text the number pattern consumed. *)
Lemma field_match_group2 (f : field) (s : text) (m : match_obj) :
  match_here IGNORECASE (field_re_of f) s = Some m ->
  exists s2 s3, matches IGNORECASE number_re s2 s3
                /\ group m 2 = consumed s2 s3.
Proof.
  rewrite field_re_of_shape. unfold match_here.
  set (k := fun (s' : text) (caps : captures) =>
              Some (mkMatch (consumed s s') caps)).
  intros H.
  change (exec IGNORECASE
            (Group 1 (Alt (lit (field_primary f)) (lit (field_fallback f))))
            (exec IGNORECASE (Seq (StarLazy Dot) (Group 2 number_re)) k)
            s [] = Some m) in H.
  destruct (exec_sound _ _ _ _ _ _ _ H) as (s1 & caps1 & _ & H1).
  change (star_lazy IGNORECASE Dot (exec IGNORECASE (Group 2 number_re) k)
            s1 caps1 = Some m) in H1.
  destruct (star_lazy_sound _ _ _ _ _ _ _ H1) as (s2 & _ & H2).
  change (exec IGNORECASE number_re
            (fun s' caps' => k s' ((2%nat, consumed s2 s') :: caps'))
            s2 caps1 = Some m) in H2.
  destruct (exec_sound _ _ _ _ _ _ _ H2) as (s3 & caps3 & M & K).
  exists s2, s3. split; [exact M |].
  unfold k in K. inversion K. reflexivity.
Qed.

(** The number pattern consumes digits and commas, then at most one point,
    then digits. *)
Lemma number_re_word (fl : flags) (s s' : text) :
  matches fl number_re s s' ->
  exists a b c,
    s = (a ++ b ++ c) ++ s'
    /\ a <> [] /\ forallb opens_number a = true
    /\ (b = [] \/ b = ["."%char])
    /\ forallb is_digit c = true.
Proof.
  unfold number_re. intros M.
  inversion M as [| | ra rb sa sb sc M1 M2 | | | | | | | |]; subst.
  inversion M2 as [| | rc rd sd se sf M3 M4 | | | | | | | |]; subst.
  inversion M1 as [| | | | | | | | a d sg sh Ad R | |]; subst.
  inversion M4 as [| | | | | | a si sj R4 | | | |]; subst.
  destruct (reps_word _ _ _ _ R) as (w1 & -> & F1).
  destruct (reps_word _ _ _ _ R4) as (w3 & -> & F3).
  assert (Fa : forallb opens_number (d :: w1) = true).
  { cbn [forallb]. rewrite <- (class_opens_number fl), Ad. cbn [andb].
    rewrite forallb_forall in F1. apply forallb_forall. intros x I.
    rewrite <- (class_opens_number fl). now apply F1. }
  inversion M3 as [| | | | | | | | | a sk | a p sk Ap]; subst.
  - exists (d :: w1), [], w3. cbn [app]. rewrite <- app_assoc.
    repeat split; auto. discriminate.
  - cbn [accepts] in Ap. destruct (ignorecase fl).
    + assert (p = "."%char) as ->.
      { destruct p as [b0 b1 b2 b3 b4 b5 b6 b7].
        destruct b0, b1, b2, b3, b4, b5, b6, b7;
          vm_compute in Ap; try discriminate Ap; reflexivity. }
      exists (d :: w1), ["."%char], w3. cbn [app]. rewrite <- app_assoc.
      cbn [app]. repeat split; auto. discriminate.
    + apply Ascii.eqb_eq in Ap. subst p.
      exists (d :: w1), ["."%char], w3. cbn [app]. rewrite <- app_assoc.
      cbn [app]. repeat split; auto. discriminate.
Qed.

(** Replacing a character by nothing is filtering it out. *)
Lemma py_replace_char_out (x : ascii) (s : text) :
  py_replace [x] [] s = filter (fun c => negb (Ascii.eqb x c)) s.
Proof.
  unfold py_replace. induction s as [| c s IH]; [reflexivity |].
  cbn [replace_from starts_with filter length Nat.sub].
  destruct (Ascii.eqb x c); cbn [andb negb app]; now rewrite IH.
Qed.

Lemma span_digits_app (d rest : text) :
  forallb is_digit d = true ->
  span_digits (d ++ rest)
  = (d ++ fst (span_digits rest), snd (span_digits rest)).
Proof.
  induction d as [| c d IH]; cbn [forallb app]; intros F.
  - now destruct (span_digits rest).
  - apply andb_true_iff in F as [Fc F].
    cbn [span_digits]. rewrite Fc, (IH F). reflexivity.
Qed.

Lemma span_digits_all (d : text) :
  forallb is_digit d = true -> span_digits d = (d, []).
Proof.
  intros F. rewrite <- (app_nil_r d) at 1.
  rewrite (span_digits_app d [] F). cbn. now rewrite app_nil_r.
Qed.

(** On digits, a point or none, and digits, [float] fails exactly when
    there is no digit at all. *)
Lemma py_float_shape (d1 b d2 : text) :
  forallb is_digit d1 = true ->
  (b = [] \/ b = ["."%char]) ->
  forallb is_digit d2 = true ->
  (py_float (d1 ++ b ++ d2) = Raise ValueError <-> d1 = [] /\ d2 = [])
  /\ (forall e, py_float (d1 ++ b ++ d2) = Raise e -> d1 = [] /\ d2 = []).
Proof.
  intros F1 B F2.
  assert (G : py_float (d1 ++ b ++ d2) = Raise ValueError <-> d1 = [] /\ d2 = []).
  { unfold py_float. destruct B as [-> | ->]; cbn [app].
    - rewrite span_digits_all by (rewrite forallb_app, F1, F2; reflexivity).
      destruct (d1 ++ d2) eqn:E.
      + apply app_eq_nil in E. tauto.
      + split; [discriminate |]. intros [-> ->]. discriminate E.
    - rewrite (span_digits_app d1 _ F1). cbn [span_digits].
      change (is_digit "."%char) with false. cbn [fst snd]. rewrite app_nil_r.
      cbn [Ascii.eqb Bool.eqb andb]. rewrite F2. cbn [andb].
      destruct d1 as [| x d1]; destruct d2 as [| y d2]; cbn [length Nat.add Nat.eqb negb];
        try rewrite Nat.add_succ_r; cbn [Nat.eqb negb];
        split; try discriminate; try tauto;
        intros [A B]; discriminate. }
  split; [exact G |].
  intros e H. apply G. now rewrite (py_float_raises _ _ H) in H.
Qed.

Lemma filter_digits_of_opens (a : text) :
  forallb opens_number a = true ->
  forallb is_digit (filter (fun c => negb (Ascii.eqb ","%char c)) a) = true
  /\ (filter (fun c => negb (Ascii.eqb ","%char c)) a = []
      <-> existsb is_digit a = false).
Proof.
  induction a as [| c a IH]; cbn [forallb filter existsb]; intros F.
  - split; [reflexivity | tauto].
  - apply andb_true_iff in F as [Fc F]. destruct (IH F) as [D E].
    unfold opens_number in Fc.
    destruct (Ascii.eqb_spec ","%char c) as [<- | N]; cbn [negb].
    + change (is_digit ","%char) with false. cbn [orb]. now split.
    + rewrite orb_false_r in Fc. rewrite Fc. cbn [forallb orb].
      rewrite Fc, D. split; [reflexivity |]. split; discriminate.
Qed.

Lemma filter_keeps_digits (c : text) :
  forallb is_digit c = true ->
  filter (fun x => negb (Ascii.eqb ","%char x)) c = c.
Proof.
  induction c as [| x c IH]; cbn [forallb filter]; intros F; [reflexivity |].
  apply andb_true_iff in F as [Fx F].
  destruct (Ascii.eqb_spec ","%char x) as [<- | _]; [discriminate Fx |].
  cbn [negb]. now rewrite IH.
Qed.

(** The number of a field match fails to parse exactly when its group
    holds no digit: commas only, with or without a point. *)
Lemma field_match_parse_failure (f : field) (t : text) (m : match_obj) :
  field_search f t = Some m ->
  (parse_group2 m = Raise ValueError <-> existsb is_digit (group m 2) = false).
Proof.
  unfold field_search. intros H.
  destruct (re_search_sound _ _ _ _ H) as (pre & s & _ & MH).
  destruct (field_match_group2 f s m MH) as (s2 & s3 & M & G).
  destruct (number_re_word _ _ _ M) as (a & b & c & -> & _ & Fa & B & Fc).
  rewrite consumed_app in G. unfold parse_group2. rewrite G.
  change (str ",") with [","%char]. change (str "") with (@nil ascii).
  rewrite py_replace_char_out, !filter_app.
  destruct (filter_digits_of_opens a Fa) as [Da Ea].
  rewrite (filter_keeps_digits c Fc).
  assert (Eb : filter (fun x => negb (Ascii.eqb ","%char x)) b = b).
  { destruct B as [-> | ->]; reflexivity. }
  rewrite Eb.
  rewrite (proj1 (py_float_shape _ b c Da B Fc)).
  rewrite !existsb_app, !orb_false_iff, Ea.
  assert (Xb : existsb is_digit b = false) by (destruct B as [-> | ->]; reflexivity).
  assert (Xc : c = [] <-> existsb is_digit c = false).
  { destruct c as [| x c]; [split; reflexivity |].
    cbn [forallb] in Fc. apply andb_true_iff in Fc as [Fx _].
    cbn [existsb]. rewrite Fx. split; discriminate. }
  rewrite Xc. tauto.
Qed.

End NumberGroup.

(* ================================================================== *)
(** * The claims about the scan *)
(* ================================================================== *)

(** C2, as stated, fails: the first page matches the CSR pattern and reads
    0, the guard [csr_spend == 0] stays open, and the second page's match
    replaces both the value and the snippet. *)
Lemma C2_counterexample :
  let page1 := str "CSR Expenditure 0" in
  let page2 := str "CSR Expenditure 500" in
  exists m1 r,
    field_search F_csr page1 = Some m1
    /\ group0 m1 = page1
    /\ parse_group2 m1 = Ok 0%Q
    /\ process_file (str "a.pdf") (Pdf [PageText page1; PageText page2]) = Ok r
    /\ CSR_Spend r = 500%Q
    /\ CSR_Evidence r = page2
    /\ ~ (CSR_Spend r == 0)%Q
    /\ CSR_Evidence r <> group0 m1.
Proof.
  cbv zeta. eexists. eexists.
  split; [vm_compute; reflexivity |].
  split; [vm_compute; reflexivity |].
  split; [vm_compute; reflexivity |].
  split; [vm_compute; reflexivity |].
  split; [vm_compute; reflexivity |].
  split; [vm_compute; reflexivity |].
  split; vm_compute; intros H; discriminate H.
Qed.

(** C2, amended: a field is settled by the first scanned page whose match
    reads a value other than the field's default; from then on no page
    touches its value or its snippet.  A field that no scanned page matches
    keeps its default (0 for csr_spend, renewable_energy and ghg, 1 for
    total_energy) and, where it has one, the snippet "Not Found". *)
Theorem C2_first_decisive_match_wins (f : field) :
  (forall (ps : list page) (st st' : scan_state),
      field_guard f st = false ->
      scan_pages ps st = Ok st' ->
      field_value f st' = field_value f st
      /\ field_evidence f st' = field_evidence f st)
  /\
  (forall (name : text) (pages ps1 ps2 : list page) (t : text)
          (m : match_obj) (v : Q) (r : doc_record),
      process_file name (Pdf pages) = Ok r ->
      firstn 10 pages = ps1 ++ PageText t :: ps2 ->
      (forall t1 m1 v1, In (PageText t1) ps1 -> field_search f t1 = Some m1 ->
                        parse_group2 m1 = Ok v1 -> (v1 == field_default f)%Q) ->
      field_search f t = Some m ->
      parse_group2 m = Ok v ->
      ~ (v == field_default f)%Q ->
      record_value f r = v /\ record_evidence f r = match_evidence f m)
  /\
  (forall (name : text) (pages : list page) (r : doc_record),
      process_file name (Pdf pages) = Ok r ->
      (forall t, In (PageText t) (firstn 10 pages) -> field_search f t = None) ->
      record_value f r = match f with F_total_energy => 1%Q | _ => 0%Q end
      /\ record_evidence f r
         = match f with
           | F_csr | F_renewable => Some (str "Not Found")
           | _ => None
           end).
Proof.
  split; [| split].
  - intros ps st st'. apply scan_pages_skip.
  - intros name pages ps1 ps2 t m v r H E D S P NV.
    destruct (process_file_ok _ _ _ H) as (st & Sc & ->).
    rewrite E in Sc.
    destruct (record_field f (company_name name) st) as [-> ->].
    apply (scan_pages_decisive f ps1 ps2 t m v init_state st); auto.
    destruct f; reflexivity.
  - intros name pages r H N.
    destruct (process_file_ok _ _ _ H) as (st & Sc & ->).
    destruct (record_field f (company_name name) st) as [-> ->].
    destruct (scan_pages_no_match f _ _ _ N Sc) as [-> ->].
    destruct f; split; reflexivity.
Qed.

(** C2 at work: the first page matches nothing, the second reads the
    default, the third decides, the fourth is skipped. *)
Lemma C2_witness :
  let pages := [ PageText (str "Annual report");
                 PageText (str "CSR Expenditure 0");
                 PageText (str "Community Spending: Rs 1,250.5 crore");
                 PageText (str "CSR Expenditure 700") ] in
  exists r,
    process_file (str "a.pdf") (Pdf pages) = Ok r
    /\ record_value F_csr r = (inject_Z 12505 / inject_Z 10)%Q
    /\ record_evidence F_csr r = Some (str "Community Spending: Rs 1,250.5").
Proof.
  intros pages.
  destruct (process_file (str "a.pdf") (Pdf pages)) as [r | e] eqn:E;
    [| vm_compute in E; discriminate E].
  exists r. split; [reflexivity |].
  refine (proj1 (proj2 (C2_first_decisive_match_wins F_csr))
            (str "a.pdf") pages
            [PageText (str "Annual report"); PageText (str "CSR Expenditure 0")]
            [PageText (str "CSR Expenditure 700")]
            (str "Community Spending: Rs 1,250.5 crore")
            (mkMatch (str "Community Spending: Rs 1,250.5")
                     [(2%nat, str "1,250.5"); (1%nat, str "Community Spending")])
            (inject_Z 12505 / inject_Z 10)%Q r E _ _ _ _ _).
  - vm_compute; reflexivity.
  - intros t1 m1 v1 [I | [I | []]] S P; inversion I; subst t1.
    + vm_compute in S. discriminate S.
    + vm_compute in S. inversion S; subst m1.
      vm_compute in P. inversion P. reflexivity.
  - vm_compute; reflexivity.
  - vm_compute; reflexivity.
  - vm_compute. intros H; discriminate H.
Defined.

(** Pages whose matches all read the default, then a page that matches:
    the field holds the value and the snippet of that last page. *)
Lemma scan_pages_open_then_match (f : field) (ps1 ps2 : list page) (t : text)
      (m : match_obj) (v : Q) (st st' : scan_state) :
  (forall t1 m1 v1, In (PageText t1) ps1 -> field_search f t1 = Some m1 ->
                    parse_group2 m1 = Ok v1 -> (v1 == field_default f)%Q) ->
  field_guard f st = true ->
  field_search f t = Some m ->
  parse_group2 m = Ok v ->
  scan_pages (ps1 ++ PageText t :: ps2) st = Ok st' ->
  exists st2,
    scan_pages ps2 st2 = Ok st'
    /\ field_value f st2 = v
    /\ field_evidence f st2 = match_evidence f m.
Proof.
  intros D G S P H. rewrite scan_pages_app in H.
  destruct (scan_pages ps1 st) as [st1 |] eqn:E1; cbn [bind] in H; [| discriminate].
  pose proof (scan_pages_still_default f ps1 st st1 D G E1) as G1.
  cbn [scan_pages] in H.
  destruct (scan_page (PageText t) st1) as [st2 |] eqn:E2; cbn [bind] in H;
    [| discriminate].
  destruct (scan_page_field f _ _ _ E2) as (t' & Et & A).
  inversion Et; subst t'.
  unfold field_after in A. rewrite G1, S, P in A. cbn [bind] in A.
  injection A as V Ev.
  exists st2. split; [exact H |]. split; congruence.
Qed.

(** C9: a match that reads the field's default leaves the field open: the
    value and the snippet of that match are stored, the guard still holds,
    and a match on a later page replaces both.  So in a document where a
    page matches and reads the default, the record holds the value and the
    snippet of a later page that matches; and a record can hold
    csr_spend = 0 (or renewable_energy = 0) next to a snippet that is not
    "Not Found". *)
Theorem C9_match_reading_default_is_searched_again :
  (forall (f : field) (st st1 st2 : scan_state) (t1 t2 : text)
          (m1 m2 : match_obj) (v1 v2 : Q),
      field_guard f st = true ->
      scan_page (PageText t1) st = Ok st1 ->
      field_search f t1 = Some m1 ->
      parse_group2 m1 = Ok v1 ->
      (v1 == field_default f)%Q ->
      scan_page (PageText t2) st1 = Ok st2 ->
      field_search f t2 = Some m2 ->
      parse_group2 m2 = Ok v2 ->
      (field_value f st1 = v1 /\ field_evidence f st1 = match_evidence f m1)
      /\ field_guard f st1 = true
      /\ field_value f st2 = v2
      /\ field_evidence f st2 = match_evidence f m2)
  /\
  (forall (f : field) (name : text) (pages ps1 ps2 ps3 : list page)
          (t1 t2 : text) (m1 m2 : match_obj) (v1 v2 : Q) (r : doc_record),
      process_file name (Pdf pages) = Ok r ->
      firstn 10 pages = ps1 ++ PageText t1 :: ps2 ++ PageText t2 :: ps3 ->
      (forall t m v, In (PageText t) (ps1 ++ ps2) -> field_search f t = Some m ->
                     parse_group2 m = Ok v -> (v == field_default f)%Q) ->
      field_search f t1 = Some m1 ->
      parse_group2 m1 = Ok v1 ->
      (v1 == field_default f)%Q ->
      field_search f t2 = Some m2 ->
      parse_group2 m2 = Ok v2 ->
      (~ (v2 == field_default f)%Q
       \/ forall t, In (PageText t) ps3 -> field_search f t = None) ->
      record_value f r = v2 /\ record_evidence f r = match_evidence f m2)
  /\
  (exists r,
      process_file (str "a.pdf") (Pdf [PageText (str "CSR Expenditure 0")]) = Ok r
      /\ (CSR_Spend r == 0)%Q
      /\ CSR_Evidence r = str "CSR Expenditure 0"
      /\ CSR_Evidence r <> str "Not Found")
  /\
  (exists r,
      process_file (str "a.pdf") (Pdf [PageText (str "Renewable Energy: 0.0")]) = Ok r
      /\ (Renewable_Energy r == 0)%Q
      /\ Renewable_Evidence r = str "Renewable Energy: 0.0"
      /\ Renewable_Evidence r <> str "Not Found")
  /\
  (exists r,
      process_file (str "a.pdf")
        (Pdf [ PageText (str "CSR Expenditure 0");
               PageText (str "Community Spending: 0.0 (nil)") ]) = Ok r
      /\ (CSR_Spend r == 0)%Q
      /\ CSR_Evidence r = str "Community Spending: 0.0").
Proof.
  split; [| split; [| split; [| split]]].
  - intros f st st1 st2 t1 t2 m1 m2 v1 v2 G H1 S1 P1 D H2 S2 P2.
    destruct (scan_page_field f _ _ _ H1) as (t & Et & A1).
    inversion Et; subst t.
    unfold field_after in A1. rewrite G, S1, P1 in A1. cbn [bind] in A1.
    inversion A1 as [[V1 E1]].
    assert (G1 : field_guard f st1 = true).
    { unfold field_guard. rewrite <- V1. now apply Qeq_bool_iff. }
    destruct (scan_page_field f _ _ _ H2) as (t & Et2 & A2).
    inversion Et2; subst t.
    unfold field_after in A2. rewrite G1, S2, P2 in A2. cbn [bind] in A2.
    inversion A2 as [[V2 E2]].
    repeat split; auto.
  - intros f name pages ps1 ps2 ps3 t1 t2 m1 m2 v1 v2 r H E D S1 P1 D1 S2 P2 L.
    destruct (process_file_ok _ _ _ H) as (st & Sc & ->).
    destruct (record_field f (company_name name) st) as [-> ->].
    rewrite E in Sc.
    replace (ps1 ++ PageText t1 :: ps2 ++ PageText t2 :: ps3)
      with ((ps1 ++ PageText t1 :: ps2) ++ PageText t2 :: ps3) in Sc
      by (rewrite <- app_assoc; reflexivity).
    assert (D' : forall t m v, In (PageText t) (ps1 ++ PageText t1 :: ps2) ->
                               field_search f t = Some m ->
                               parse_group2 m = Ok v -> (v == field_default f)%Q).
    { intros t m v I S P. apply in_app_or in I as [I | [I | I]].
      - apply (D t m v); [apply in_or_app; now left | exact S | exact P].
      - inversion I; subst t. rewrite S1 in S. inversion S; subst m.
        rewrite P1 in P. inversion P; subst v. exact D1.
      - apply (D t m v); [apply in_or_app; now right | exact S | exact P]. }
    assert (G0 : field_guard f init_state = true) by (destruct f; reflexivity).
    destruct (scan_pages_open_then_match f _ ps3 t2 m2 v2 init_state st D' G0 S2 P2 Sc)
      as (st2 & Sc3 & V & Ev).
    destruct L as [NV | N].
    + assert (G2 : field_guard f st2 = false).
      { unfold field_guard. rewrite V.
        destruct (Qeq_bool v2 (field_default f)) eqn:Q; [| reflexivity].
        apply Qeq_bool_iff in Q. contradiction. }
      destruct (scan_pages_skip f ps3 st2 st G2 Sc3) as [V' Ev']. split; congruence.
    + destruct (scan_pages_no_match f ps3 st2 st N Sc3) as [V' Ev']. split; congruence.
  - eexists. split; [vm_compute; reflexivity |].
    split; [reflexivity |].
    split; [reflexivity |].
    vm_compute. intros H; discriminate H.
  - eexists. split; [vm_compute; reflexivity |].
    split; [reflexivity |].
    split; [reflexivity |].
    vm_compute. intros H; discriminate H.
  - eexists. split; [vm_compute; reflexivity |].
    split; reflexivity.
Qed.

(** C9 at work: page one reads 0, page two matches nothing, page three
    reads 0.0 and leaves its snippet, page four reads 500 and settles the
    field, page five is not searched. *)
Lemma C9_witness :
  let pages := [ PageText (str "CSR Expenditure 0");
                 PageText (str "Directors' report");
                 PageText (str "Community Spending: 0.0 (nil)");
                 PageText (str "CSR Expenditure 500");
                 PageText (str "CSR Expenditure 700") ] in
  exists r,
    process_file (str "a.pdf") (Pdf pages) = Ok r
    /\ record_value F_csr r = inject_Z 500
    /\ record_evidence F_csr r = Some (str "CSR Expenditure 500").
Proof.
  intros pages.
  destruct (process_file (str "a.pdf") (Pdf pages)) as [r | e] eqn:E;
    [| vm_compute in E; discriminate E].
  exists r. split; [reflexivity |].
  refine (proj1 (proj2 C9_match_reading_default_is_searched_again)
            F_csr (str "a.pdf") pages
            []
            [PageText (str "Directors' report");
             PageText (str "Community Spending: 0.0 (nil)")]
            [PageText (str "CSR Expenditure 700")]
            (str "CSR Expenditure 0") (str "CSR Expenditure 500")
            (mkMatch (str "CSR Expenditure 0")
                     [(2%nat, str "0"); (1%nat, str "CSR Expenditure")])
            (mkMatch (str "CSR Expenditure 500")
                     [(2%nat, str "500"); (1%nat, str "CSR Expenditure")])
            (inject_Z 0) (inject_Z 500) r E _ _ _ _ _ _ _ _).
  - vm_compute; reflexivity.
  - intros t m v [I | [I | []]] S P; inversion I; subst t.
    + vm_compute in S. discriminate S.
    + vm_compute in S. inversion S; subst m.
      vm_compute in P. inversion P. reflexivity.
  - vm_compute; reflexivity.
  - vm_compute; reflexivity.
  - vm_compute; reflexivity.
  - vm_compute; reflexivity.
  - vm_compute; reflexivity.
  - left. vm_compute. intros H; discriminate H.
Defined.

(* ================================================================== *)
(** * The claims about failing documents *)
(* ================================================================== *)

(** C4, as stated, fails: "CSR Expenditure," matches with the number group
    ",", which is no number once the comma is gone; [float] raises, the
    handler of the file loop catches it, and the document has no record. *)
Lemma C4_counterexample :
  let page := str "CSR Expenditure, as reported" in
  let doc := Pdf [PageText page] in
  let good := Pdf [PageText (str "Renewable Energy 40")] in
  (exists m, field_search F_csr page = Some m
             /\ group m 2 = str ","
             /\ parse_group2 m = Raise ValueError)
  /\ process_file (str "a.pdf") doc = Raise ValueError
  /\ process_pdfs (Some [(str "a.pdf", doc)]) = []
  /\ length (process_pdfs (Some [(str "a.pdf", doc); (str "b.pdf", good)])) = 1%nat.
Proof.
  cbv zeta. split; [eexists; split; [| split] |]; try (vm_compute; reflexivity).
  repeat split; vm_compute; reflexivity.
Qed.

(** C4, amended: when a field that is still open matches on a scanned page
    and its number group is no number (which is when the group holds no
    digit), the file's pipeline ends in ValueError, and the batch is what
    it is without that file: the document has no record, and no exception
    leaves [process_pdfs]. *)
Theorem C4_parse_failure_discards_the_document
        (f : field) (name : text) (pages ps1 ps2 : list page) (t : text)
        (st1 : scan_state) (m : match_obj) :
  firstn 10 pages = ps1 ++ PageText t :: ps2 ->
  scan_pages ps1 init_state = Ok st1 ->
  field_guard f st1 = true ->
  field_search f t = Some m ->
  parse_group2 m = Raise ValueError ->
  existsb is_digit (group m 2) = false
  /\ process_file name (Pdf pages) = Raise ValueError
  /\ forall before after,
      process_pdfs (Some (before ++ (name, Pdf pages) :: after))
      = process_pdfs (Some (before ++ after)).
Proof.
  intros E S1 G S P.
  split; [exact (proj1 (field_match_parse_failure f t m S) P) |].
  assert (R : process_file name (Pdf pages) = Raise ValueError).
  { unfold process_file. rewrite E.
    rewrite (scan_pages_raise_at ps1 ps2 (PageText t) init_state st1 ValueError S1);
      [reflexivity |].
    cbn [scan_page extract_text bind].
    apply (scan_text_raises f _ _ ValueError).
    rewrite field_after_set_full_text. unfold field_after.
    now rewrite G, S, P. }
  split; [exact R |].
  intros before after. exact (batch_skips_failure before after _ _ _ R).
Qed.

(** C4 at work: the second page carries the malformed figure. *)
Lemma C4_witness :
  let pages := [ PageText (str "Renewable Energy 40");
                 PageText (str "Energy Consumption ,. units") ] in
  process_file (str "a.pdf") (Pdf pages) = Raise ValueError
  /\ forall before after,
      process_pdfs (Some (before ++ (str "a.pdf", Pdf pages) :: after))
      = process_pdfs (Some (before ++ after)).
Proof.
  intros pages.
  refine (proj2 (C4_parse_failure_discards_the_document F_total_energy (str "a.pdf") pages
            [PageText (str "Renewable Energy 40")] []
            (str "Energy Consumption ,. units")
            (mkState (str "Renewable Energy 40") 0 (inject_Z 40) 1 0
                     (str "Not Found") (str "Renewable Energy 40"))
            (mkMatch (str "Energy Consumption ,.")
                     [(2%nat, str ",."); (1%nat, str "Energy Consumption")])
            _ _ _ _ _)).
  - vm_compute; reflexivity.
  - vm_compute; reflexivity.
  - vm_compute; reflexivity.
  - vm_compute; reflexivity.
  - vm_compute; reflexivity.
Defined.

(** C10: a page among the first ten whose text extraction gives None ends
    the file's pipeline in an exception, whatever the earlier pages held,
    and the batch is what it is without that file.  A page of empty text
    does no such thing. *)
Theorem C10_page_without_text_discards_the_document
        (name : text) (pages : list page) :
  In PageNone (firstn 10 pages) ->
  (exists e, process_file name (Pdf pages) = Raise e)
  /\ (forall before after,
         process_pdfs (Some (before ++ (name, Pdf pages) :: after))
         = process_pdfs (Some (before ++ after)))
  /\ (forall st, scan_page PageNone st = Raise TypeError)
  /\ (forall st, scan_page (PageText []) st <> Raise TypeError).
Proof.
  intros I.
  destruct (scan_pages_bad_page PageNone (firstn 10 pages) init_state
              (or_introl eq_refl) I) as (e & R).
  assert (F : process_file name (Pdf pages) = Raise e).
  { unfold process_file. now rewrite R. }
  split; [now exists e |].
  split; [intros before after; exact (batch_skips_failure before after _ _ _ F) |].
  split; [reflexivity |].
  intros st H. cbn [scan_page extract_text bind] in H.
  apply scan_text_raise_kind in H. discriminate H.
Qed.

(** C10 at work: the first page had its matches, the second has no text. *)
Lemma C10_witness :
  let pages := [ PageText (str "CSR Expenditure 500"); PageNone ] in
  process_file (str "a.pdf") (Pdf pages) = Raise TypeError
  /\ process_pdfs (Some [(str "a.pdf", Pdf pages)]) = [].
Proof.
  cbv zeta. split; [vm_compute; reflexivity |].
  exact (proj1 (proj2 (C10_page_without_text_discards_the_document
           (str "a.pdf") [PageText (str "CSR Expenditure 500"); PageNone]
           (or_intror (or_introl eq_refl)))) [] []).
Defined.

(** C7: a file whose pipeline raises (a file that does not open, a corrupt
    page or a page without text among the first ten, a number that does not
    parse) adds nothing to the result, and the result is the one of the
    batch without that file. *)
Theorem C7_failing_file_contributes_nothing
        (before after : list (text * pdf_file)) (name : text) (f : pdf_file) :
  (f = Unreadable
   \/ (exists pages p, f = Pdf pages /\ In p (firstn 10 pages)
                       /\ (p = PageNone \/ p = PageCorrupt))
   \/ (exists e, process_file name f = Raise e)) ->
  (exists e, process_file name f = Raise e)
  /\ process_pdfs (Some (before ++ (name, f) :: after))
     = process_pdfs (Some (before ++ after)).
Proof.
  intros H.
  assert (R : exists e, process_file name f = Raise e).
  { destruct H as [-> | [(pages & p & -> & I & B) | R]].
    - now exists PdfError.
    - destruct (scan_pages_bad_page p (firstn 10 pages) init_state B I) as (e & R).
      exists e. unfold process_file. now rewrite R.
    - exact R. }
  split; [exact R |].
  destruct R as (e & R). exact (batch_skips_failure before after _ _ _ R).
Qed.

(** C7 at work: an unreadable file between two good ones. *)
Lemma C7_witness :
  let a := (str "a.pdf", Pdf [PageText (str "CSR Expenditure 500")]) in
  let b := (str "b.pdf", Unreadable) in
  let c := (str "c.pdf", Pdf [PageText (str "Renewable Energy 40")]) in
  process_pdfs (Some [a; b; c]) = process_pdfs (Some [a; c])
  /\ length (process_pdfs (Some [a; b; c])) = 2%nat.
Proof.
  cbv zeta. split; [| vm_compute; reflexivity].
  exact (proj2 (C7_failing_file_contributes_nothing
           [(str "a.pdf", Pdf [PageText (str "CSR Expenditure 500")])]
           [(str "c.pdf", Pdf [PageText (str "Renewable Energy 40")])]
           (str "b.pdf") Unreadable (or_introl eq_refl))).
Defined.

(* ================================================================== *)
(** * The claims about the scores of a record *)
(* ================================================================== *)

(** On exact values, where no figure overflows: the policy count of a
    record is at most 5 and the extracted values are non-negative, so that
    the three scores, before and after rounding, lie between 0 and 100, and
    the risk score is the talk score less the walk score, or 0 when that
    is negative. *)
Lemma exact_scores_stay_in_range (name : text) (f : pdf_file) (r : doc_record) :
  process_file name f = Ok r ->
  let sc := scoring (Policies r) (CSR_Spend r) (Renewable_Energy r)
                    (Total_Energy r) in
  ((Policies r <= 5)%nat
   /\ 0 <= CSR_Spend r /\ 0 <= Renewable_Energy r
   /\ 0 <= Total_Energy r /\ 0 <= GHG_Scope_1 r)%Q
  /\ (0 <= talk_score sc <= 100 /\ 0 <= walk_score sc <= 100
      /\ 0 <= risk_score sc <= 100)%Q
  /\ risk_score sc = Qmax (talk_score sc - walk_score sc) 0
  /\ (Talk_Score r = py_round1 (talk_score sc)
      /\ Walk_Score r = py_round1 (walk_score sc)
      /\ Risk_Score r = py_round1 (risk_score sc))
  /\ (0 <= Talk_Score r <= 100 /\ 0 <= Walk_Score r <= 100
      /\ 0 <= Risk_Score r <= 100)%Q.
Proof.
  intros H. destruct f as [| pages]; [discriminate H |].
  destruct (process_file_ok _ _ _ H) as (st & Sc & ->).
  pose proof (scan_pages_nonneg _ _ _ init_state_nonneg Sc) as N.
  pose proof (count_policies_le (full_text st)) as Pc.
  cbn [Policies CSR_Spend Renewable_Energy Total_Energy GHG_Scope_1
       Talk_Score Walk_Score Risk_Score make_record].
  cbv zeta.
  pose proof (scoring_bounds (count_policies (full_text st)) (csr_spend st)
                (renewable_energy st) (total_energy st) Pc
                (N F_csr) (N F_renewable)) as B.
  cbv zeta in B. destruct B as (T & W & R).
  split; [repeat split; [exact Pc | exact (N F_csr) | exact (N F_renewable)
                        | exact (N F_total_energy) | exact (N F_ghg)] |].
  split; [auto |].
  split; [| split; [auto |]].
  - unfold scoring. cbn [risk_score talk_score walk_score].
    apply clamp_low_Qmax.
  - repeat split; apply py_round1_bounds; assumption.
Qed.

(** C6: the code does not keep the scores of every record between 0 and
    100.  A page gives renewable energy and total energy as figures of 310
    digits; [float] makes infinity of both, [total_energy > 10] holds and
    the renewable mix is infinity / infinity * 100, which is NaN.  NaN is
    neither above 100 nor below 0, so neither clamp applies, and the walk
    score and the risk score are stored as NaN, whatever the policy count.
    On the figures of the specification's example the same lines give
    100, 90 and 10. *)
Theorem C6_overflowing_figures_give_nan_scores :
  let fig := "1"%char :: repeat "0"%char 309 in
  let page := str "Renewable Energy Use: " ++ fig
                ++ newline :: str "Total Energy Consumption: " ++ fig in
  (exists m_ren m_en,
      field_search F_renewable page = Some m_ren
      /\ group m_ren 2 = fig
      /\ parse_group2_64 m_ren = Ok infinity
      /\ field_search F_total_energy page = Some m_en
      /\ group m_en 2 = fig
      /\ parse_group2_64 m_en = Ok infinity)
  /\ field_search F_csr page = None
  /\ PrimFloat.leb 0 infinity = true
  /\ forallb
       (fun policy_count =>
          let sc := scoring64 policy_count 0 infinity infinity in
          PrimFloat.is_nan (walk_score64 sc)
          && PrimFloat.is_nan (risk_score64 sc)
          && PrimFloat.is_nan (walk_score64 (rounded64 sc))
          && PrimFloat.is_nan (risk_score64 (rounded64 sc))
          && negb (in_range64 (walk_score64 (rounded64 sc)))
          && negb (in_range64 (risk_score64 (rounded64 sc)))
          && in_range64 (talk_score64 (rounded64 sc)))
       (seq 0 6) = true
  /\ (let sc := rounded64 (scoring64 5 500 400 1000) in
      PrimFloat.eqb (talk_score64 sc) 100 = true
      /\ PrimFloat.eqb (walk_score64 sc) 90 = true
      /\ PrimFloat.eqb (risk_score64 sc) 10 = true).
Proof.
  cbv zeta.
  split; [eexists; eexists; repeat split; vm_compute; reflexivity |].
  repeat split; vm_compute; reflexivity.
Qed.

(* ================================================================== *)
(** * The claims about the patterns *)
(* ================================================================== *)

Lemma count_from_filter (t : text) (l : list text) (n : nat) :
  fold_left (fun policy_count p =>
               if policy_found p t then S policy_count else policy_count) l n
  = (n + length (filter (fun p => policy_found p t) l))%nat.
Proof.
  revert n. induction l as [| p l IH]; intros n; cbn [fold_left filter]; [cbn; lia |].
  rewrite IH. destruct (policy_found p t); cbn [length]; lia.
Qed.

(** The text the policies are looked for in is the text of the scanned
    pages, one after the other, with nothing in between. *)
Lemma scan_pages_full_text (ps : list page) (st st' : scan_state) :
  scan_pages ps st = Ok st' ->
  exists texts, ps = map PageText texts
                /\ full_text st' = full_text st ++ concat texts.
Proof.
  revert st. induction ps as [| p ps IH]; intros st H; cbn [scan_pages] in H.
  - inversion H; subst. exists []. now rewrite app_nil_r.
  - destruct (scan_page p st) as [st1 |] eqn:E; cbn [bind] in H; [| discriminate].
    destruct p as [t | |]; cbn [scan_page extract_text bind] in E; try discriminate.
    apply scan_text_full_text in E. cbn [set_full_text full_text] in E.
    destruct (IH st1 H) as (texts & -> & F).
    exists (t :: texts). split; [reflexivity |].
    cbn [concat]. now rewrite F, E, app_assoc.
Qed.

Lemma policies_NoDup : NoDup policies.
Proof.
  unfold policies.
  repeat (constructor;
          [cbn [In]; intros H;
           repeat (destruct H as [H | H]; [vm_compute in H; discriminate H |]);
           exact H |]).
  constructor.
Qed.

(** C5: the policy count of a record is taken on the text of the scanned
    pages put end to end; it is the number of checklist policies whose name
    occurs in that text with "Yes" anywhere after it, across line breaks
    and whatever the case; a policy counts once however often its name
    occurs, so the count is at most 5. *)
Theorem C5_policy_count_is_number_of_affirmed_policies :
  (forall t : text,
      (exists l : list text,
          NoDup l
          /\ (forall p, In p l <-> In p policies /\ affirmed p t)
          /\ count_policies t = length l)
      /\ (0 <= count_policies t <= 5)%nat)
  /\ length policies = 5%nat
  /\ (forall (name : text) (pages : list page) (r : doc_record),
         process_file name (Pdf pages) = Ok r ->
         exists texts, firstn 10 pages = map PageText texts
                       /\ Policies r = count_policies (concat texts)).
Proof.
  split; [| split; [reflexivity |]].
  - intros t. split; [| split; [lia | apply count_policies_le]].
    exists (filter (fun p => policy_found p t) policies).
    split; [apply NoDup_filter, policies_NoDup |].
    split.
    + intros p. rewrite filter_In, policy_found_iff. reflexivity.
    + unfold count_policies. now rewrite count_from_filter.
  - intros name pages r H.
    destruct (process_file_ok _ _ _ H) as (st & Sc & ->).
    destruct (scan_pages_full_text _ _ _ Sc) as (texts & E & F).
    exists texts. split; [exact E |].
    cbn [Policies make_record]. now rewrite F.
Qed.

(** C5 at work: the name on one page, the "yes" on the next. *)
Lemma C5_witness :
  let pages := [ PageText (str "Water Policy" ++ [newline]);
                 PageText (str "adopted: YES") ] in
  exists r texts,
    process_file (str "a.pdf") (Pdf pages) = Ok r
    /\ firstn 10 pages = map PageText texts
    /\ Policies r = count_policies (concat texts)
    /\ Policies r = 1%nat.
Proof.
  intros pages.
  destruct (process_file (str "a.pdf") (Pdf pages)) as [r | e] eqn:E;
    [| vm_compute in E; discriminate E].
  destruct (proj2 (proj2 C5_policy_count_is_number_of_affirmed_policies)
              (str "a.pdf") pages r E) as (texts & Ep & Ec).
  exists r, texts. split; [reflexivity |].
  split; [exact Ep |]. split; [exact Ec |].
  vm_compute in E. inversion E. reflexivity.
Defined.

(** The same policy named twice counts once; a "yes" on a later line
    counts; and any "yes" further on affirms every policy named before it. *)
Example count_policies_example :
  count_policies (str "Climate Change Policy" ++ newline
                    :: str "YES. climate change policy: Yes") = 1%nat
  /\ count_policies (str "Water Policy: No. Human Rights Policy: Yes") = 2%nat
  /\ count_policies (str "Yes, a Biodiversity Policy") = 0%nat.
Proof. repeat split; vm_compute; reflexivity. Qed.

(** C3, as stated, fails: with the label on one line and the figure on the
    next, no field pattern matches, because the dot of the gap does not
    take a line break; with a blank in place of the line break each of
    them matches. *)
Lemma C3_counterexample :
  field_search F_csr (str "CSR Expenditure" ++ newline :: str "500") = None
  /\ field_search F_renewable (str "Renewable Energy Use" ++ newline :: str "40") = None
  /\ field_search F_total_energy
       (str "Total Energy Consumption" ++ newline :: str "1,000") = None
  /\ field_search F_ghg (str "Scope 1 Emissions" ++ newline :: str "12.5") = None
  /\ field_search F_csr (str "CSR Expenditure 500")
     = Some (mkMatch (str "CSR Expenditure 500")
                     [(2%nat, str "500"); (1%nat, str "CSR Expenditure")]).
Proof. repeat split; vm_compute; reflexivity. Qed.

(** C3, amended: a field search is case-insensitive and starts anywhere in
    the page text, on any line, but it does not cross a line break: it
    succeeds exactly when the text shows one of the two phrases and,
    after it and before the next line break, a digit or a comma; and the
    matched text, from the phrase to the number, holds no line break. *)
Theorem C3_field_match_stays_on_one_line (f : field) (t : text) :
  (field_search f t <> None <-> label_then_number_on_line f t)
  /\ (forall m, field_search f t = Some m -> ~ In newline (group0 m)).
Proof.
  split; [apply field_search_iff | apply field_search_within_line].
Qed.

(** C3 at work: the label sits on the second line of the page, in capitals,
    with its figure on the same line. *)
Lemma C3_witness :
  let t := str "Annual report" ++ newline :: str "COMMUNITY SPENDING Rs 1,250.5"
             ++ newline :: str "600" in
  let m := mkMatch (str "COMMUNITY SPENDING Rs 1,250.5")
                   [(2%nat, str "1,250.5"); (1%nat, str "COMMUNITY SPENDING")] in
  field_search F_csr t = Some m
  /\ ~ In newline (group0 m)
  /\ label_then_number_on_line F_csr t.
Proof.
  intros t m.
  assert (S : field_search F_csr t = Some m) by (vm_compute; reflexivity).
  split; [exact S |].
  split.
  - exact (proj2 (C3_field_match_stays_on_one_line F_csr t) m S).
  - refine (proj1 (proj1 (C3_field_match_stays_on_one_line F_csr t)) _).
    rewrite S. discriminate.
Defined.

(* ================================================================== *)
(** * The claim about the display name *)
(* ================================================================== *)

Section DisplayName.

Lemma starts_with_app (p s : text) : starts_with p (p ++ s) = true.
Proof.
  induction p as [| c p IH]; cbn [starts_with app]; [reflexivity |].
  now rewrite Ascii.eqb_refl, IH.
Qed.

Lemma firstn_length_app (w s : text) : firstn (length (w ++ s) - length s) (w ++ s) = w.
Proof. exact (consumed_app w s). Qed.

Lemma remove_extension_pdf (stem : text) :
  remove_extension (stem ++ str ".pdf") = stem.
Proof.
  unfold remove_extension, ends_with.
  rewrite rev_app_distr, starts_with_app.
  exact (firstn_length_app stem (str ".pdf")).
Qed.

(** On a name whose only point is the one of its extension, dropping every
    ".pdf" is dropping the extension. *)
Lemma py_replace_pdf_single_point (stem : text) :
  ~ In "."%char stem ->
  py_replace (str ".pdf") (str "") (stem ++ str ".pdf") = stem.
Proof.
  unfold py_replace. induction stem as [| c stem IH]; intros N.
  - vm_compute; reflexivity.
  - cbn [app replace_from].
    assert (S : starts_with (str ".pdf") (c :: stem ++ str ".pdf") = false).
    { change (str ".pdf") with ("."%char :: str "pdf") at 1. cbn [starts_with].
      destruct (Ascii.eqb_spec "."%char c) as [E | _]; [| reflexivity].
      exfalso. apply N. now left. }
    rewrite S. f_equal. apply IH. intros I. apply N. now right.
Qed.

(** A file name that is a key of the table shows its formal name. *)
Lemma company_name_of_key (key formal : text) :
  In (key, formal) name_map -> company_name key = formal.
Proof.
  unfold name_map. cbn [In]. intros H.
  repeat (destruct H as [H | H]; [inversion H; subst; vm_compute; reflexivity |]).
  destruct H.
Qed.

(** The code and the specification give the same display name to every
    file name that has no other point than the one of ".pdf". *)
Lemma company_name_single_point (stem : text) :
  ~ In "."%char stem ->
  company_name (stem ++ str ".pdf") = spec_company_name (stem ++ str ".pdf").
Proof.
  intros N. unfold company_name, spec_company_name.
  now rewrite py_replace_pdf_single_point, remove_extension_pdf.
Qed.

End DisplayName.

(** C8: a key of the table shows its formal name and "foo_bar.pdf" shows
    "Foo Bar", as the claim says; but the code drops every ".pdf" of the
    name, not only the extension, so that "report.pdf_final.pdf" shows
    "Report Final" where the claim's wording gives "Report.Pdf Final". *)
Theorem C8_every_pdf_is_dropped_from_the_name :
  company_name (str "acc.pdf") = str "ACC Limited"
  /\ company_name (str "foo_bar.pdf") = str "Foo Bar"
  /\ spec_company_name (str "foo_bar.pdf") = str "Foo Bar"
  /\ ends_with (str ".pdf") (str "report.pdf_final.pdf") = true
  /\ dict_get (str "report.pdf_final.pdf") name_map = None
  /\ company_name (str "report.pdf_final.pdf") = str "Report Final"
  /\ spec_company_name (str "report.pdf_final.pdf") = str "Report.Pdf Final"
  /\ company_name (str "report.pdf_final.pdf")
     <> spec_company_name (str "report.pdf_final.pdf").
Proof.
  repeat split; try (vm_compute; reflexivity).
  vm_compute. intros H; discriminate H.
Qed.

(* ================================================================== *)
(** * Further properties: the batch *)
(* ================================================================== *)

(** X1: the batch over a listing cut in two is the batch of the first part
    followed by the batch of the second: no document's record depends on
    another document, and the records keep the order of the listing. *)
Theorem X1_batch_of_a_listing_in_two_parts (a b : list (text * pdf_file)) :
  process_pdfs (Some (a ++ b)) = process_pdfs (Some a) ++ process_pdfs (Some b).
Proof.
  rewrite !process_pdfs_flat_map, filter_app, flat_map_app. reflexivity.
Qed.

(** X2: the records of a batch are exactly the records of the listed files
    whose name ends in ".pdf" and whose pipeline raises nothing; there is
    at most one record per such file. *)
Theorem X2_records_come_from_the_pdf_files_that_succeed
        (entries : list (text * pdf_file)) :
  (forall r,
      In r (process_pdfs (Some entries))
      <-> exists name f, In (name, f) entries
                         /\ ends_with (str ".pdf") name = true
                         /\ process_file name f = Ok r)
  /\ (length (process_pdfs (Some entries))
      <= length (filter (fun e => ends_with (str ".pdf") (fst e)) entries))%nat
  /\ (length (process_pdfs (Some entries)) <= length entries)%nat.
Proof.
  rewrite process_pdfs_flat_map.
  set (files := filter (fun e => ends_with (str ".pdf") (fst e)) entries).
  assert (L : forall l : list (text * pdf_file),
             (length (flat_map records_of l) <= length l)%nat).
  { induction l as [| e l IH]; cbn [flat_map length]; [lia |].
    rewrite length_app. unfold records_of at 1.
    destruct (process_file (fst e) (snd e)); cbn [length]; lia. }
  split; [| split].
  - intros r. rewrite in_flat_map. split.
    + intros ([name f] & I & R). apply filter_In in I as [I E].
      unfold records_of in R. cbn [fst snd] in *.
      destruct (process_file name f) as [r' |] eqn:P; [| destruct R].
      destruct R as [<- | []]. now exists name, f.
    + intros (name & f & I & E & P). exists (name, f). split.
      * apply filter_In. now split.
      * unfold records_of. cbn [fst snd]. rewrite P. now left.
  - apply L.
  - etransitivity; [apply L |]. apply filter_length_le.
Qed.

(** X2 at work: a text file, a good report and a report that does not
    open. *)
Lemma X2_witness :
  let good := Pdf [PageText (str "CSR Expenditure 500")] in
  let entries := [ (str "notes.txt", good); (str "a.pdf", good);
                   (str "b.pdf", Unreadable); (str "c.PDF", good) ] in
  exists r,
    process_file (str "a.pdf") good = Ok r
    /\ In r (process_pdfs (Some entries))
    /\ length (process_pdfs (Some entries)) = 1%nat.
Proof.
  intros good entries.
  destruct (process_file (str "a.pdf") good) as [r | e] eqn:E;
    [| vm_compute in E; discriminate E].
  exists r. split; [reflexivity |]. split.
  - apply (proj2 (proj1 (X2_records_come_from_the_pdf_files_that_succeed entries) r)).
    exists (str "a.pdf"), good.
    split; [right; left; reflexivity |]. split; [reflexivity | exact E].
  - vm_compute; reflexivity.
Defined.

(** X3: only the first ten pages of a document are read: whatever follows
    them, even a page without text or a corrupt one, changes neither the
    record nor the failure of the document. *)
Theorem X3_pages_after_the_tenth_are_not_read
        (name : text) (first_ten more : list page) :
  length first_ten = 10%nat ->
  process_file name (Pdf (first_ten ++ more)) = process_file name (Pdf first_ten).
Proof.
  intros L. unfold process_file.
  rewrite firstn_app, L, Nat.sub_diag. cbn [firstn]. now rewrite app_nil_r.
Qed.

(** X3 at work: the eleventh page has no text and the document is kept. *)
Lemma X3_witness :
  let first_ten := repeat (PageText (str "CSR Expenditure 500")) 10 in
  process_file (str "a.pdf") (Pdf (first_ten ++ [PageNone; PageCorrupt]))
  = process_file (str "a.pdf") (Pdf first_ten)
  /\ exists r, process_file (str "a.pdf") (Pdf (first_ten ++ [PageNone; PageCorrupt]))
               = Ok r.
Proof.
  intros first_ten.
  assert (E : process_file (str "a.pdf") (Pdf (first_ten ++ [PageNone; PageCorrupt]))
              = process_file (str "a.pdf") (Pdf first_ten)).
  { apply (X3_pages_after_the_tenth_are_not_read (str "a.pdf") first_ten
             [PageNone; PageCorrupt]). reflexivity. }
  split; [exact E |].
  rewrite E.
  destruct (process_file (str "a.pdf") (Pdf first_ten)) as [r | e] eqn:P;
    [now exists r | vm_compute in P; discriminate P].
Defined.

(* ================================================================== *)
(** * Further properties: the scores *)
(* ================================================================== *)

Section ScoreFacts.

Open Scope Q_scope.

Lemma round_half_even_comp (x y : Q) :
  x == y -> round_half_even x = round_half_even y.
Proof.
  intros H. unfold round_half_even. rewrite (Qfloor_comp x y H).
  assert (C : Qcompare (x - inject_Z (Qfloor y)) (1 # 2)
              = Qcompare (y - inject_Z (Qfloor y)) (1 # 2)).
  { apply Qcompare_comp; [now rewrite H | reflexivity]. }
  now rewrite C.
Qed.

Lemma py_round1_comp (x y : Q) : x == y -> py_round1 x = py_round1 y.
Proof.
  intros H. unfold py_round1.
  rewrite (round_half_even_comp (x * 10) (y * 10)); [reflexivity | now rewrite H].
Qed.

Lemma round_half_even_Z (z : Z) : round_half_even (inject_Z z) = z.
Proof.
  unfold round_half_even. rewrite Qfloor_Z.
  assert (C : Qcompare (inject_Z z - inject_Z z) (1 # 2) = Lt).
  { rewrite <- Qlt_alt. unfold Qminus. rewrite Qplus_opp_r. reflexivity. }
  now rewrite C.
Qed.

(** A number of tenths is its own rounding. *)
Lemma py_round1_tenths (z : Z) : py_round1 (inject_Z z / 10) = inject_Z z / 10.
Proof.
  unfold py_round1.
  rewrite (round_half_even_comp (inject_Z z / 10 * 10) (inject_Z z)) by field.
  now rewrite round_half_even_Z.
Qed.

Lemma talk_in_tenths (pc : nat) :
  inject_Z (Z.of_nat pc) / inject_Z (Z.of_nat (length policies)) * 100
  == inject_Z (200 * Z.of_nat pc) / 10.
Proof.
  change (inject_Z (Z.of_nat (length policies))) with 5.
  rewrite inject_Z_mult. change (inject_Z 200) with 200. field.
Qed.


End ScoreFacts.

(** X4: when total energy is 10 or less, as it is when no page gave a total
    energy figure and the variable kept its initial 1, the renewable energy
    does not count: the walk score is the CSR part alone, at most 50. *)
Theorem X4_low_total_energy_leaves_renewables_out :
  (forall (pc : nat) (csr ren tot : Q),
      (tot <= 10)%Q ->
      scoring pc csr ren tot = scoring pc csr 0 tot
      /\ (walk_score (scoring pc csr ren tot) == py_min (csr / 500 * 50) 50)%Q
      /\ (walk_score (scoring pc csr ren tot) <= 50)%Q)
  /\
  (forall (name : text) (pages : list page) (r : doc_record),
      process_file name (Pdf pages) = Ok r ->
      (forall t, In (PageText t) (firstn 10 pages) ->
                 field_search F_total_energy t = None) ->
      Total_Energy r = 1%Q
      /\ Walk_Score r = py_round1 (py_min (CSR_Spend r / 500 * 50) 50)
      /\ (Walk_Score r <= 50)%Q).
Proof.
  assert (S : forall (pc : nat) (csr ren tot : Q),
             (tot <= 10)%Q ->
             scoring pc csr ren tot = scoring pc csr 0 tot
             /\ (walk_score (scoring pc csr ren tot) == py_min (csr / 500 * 50) 50)%Q
             /\ (walk_score (scoring pc csr ren tot) <= 50)%Q).
  { intros pc csr ren tot H. apply Qltb_ge in H.
    unfold scoring. rewrite H. cbn [walk_score].
    assert (C : (py_min (csr / 500 * 50) 50 <= 50)%Q).
    { unfold py_min. destruct (Qltb 50 (csr / 500 * 50)) eqn:E; [lra |].
      now apply Qltb_ge in E. }
    set (c := py_min (csr / 500 * 50) 50) in *.
    split; [reflexivity |].
    destruct (Qltb 100 (0 + c)) eqn:E.
    - apply Qltb_lt in E. lra.
    - split; lra. }
  split; [exact S |].
  intros name pages r H N.
  destruct (process_file_ok _ _ _ H) as (st & Sc & ->).
  destruct (scan_pages_no_match F_total_energy _ _ _ N Sc) as [V _].
  cbn [field_value init_state total_energy] in V.
  cbn [Total_Energy Walk_Score CSR_Spend make_record].
  rewrite V.
  destruct (S (count_policies (full_text st)) (csr_spend st)
              (renewable_energy st) 1%Q) as (_ & W & B); [lra |].
  split; [reflexivity |].
  split; [now apply py_round1_comp |].
  pose proof (scan_pages_nonneg _ _ _ init_state_nonneg Sc) as NN.
  pose proof (scoring_bounds (count_policies (full_text st)) (csr_spend st)
                (renewable_energy st) 1%Q (count_policies_le _)
                (NN F_csr) (NN F_renewable)) as (_ & [W0 _] & _).
  unfold py_round1.
  assert (R : (0 <= walk_score (scoring (count_policies (full_text st))
                      (csr_spend st) (renewable_energy st) 1) * 10
               <= inject_Z 500)%Q).
  { change (inject_Z 500) with 500%Q. split; lra. }
  apply round_half_even_bounds in R. destruct R as [_ R].
  rewrite Zle_Qle in R. change (inject_Z 500) with 500%Q in R.
  rewrite tenth_mul. lra.
Qed.

(** X4 at work: a report with its renewable energy but no total energy. *)
Lemma X4_witness :
  let pages := [PageText (str "Renewable Energy Use 900; CSR Expenditure 100")] in
  exists r,
    process_file (str "a.pdf") (Pdf pages) = Ok r
    /\ Renewable_Energy r = inject_Z 900
    /\ Total_Energy r = 1%Q
    /\ (Walk_Score r <= 50)%Q.
Proof.
  intros pages.
  destruct (process_file (str "a.pdf") (Pdf pages)) as [r | e] eqn:E;
    [| vm_compute in E; discriminate E].
  exists r. split; [reflexivity |].
  split; [vm_compute in E; inversion E; reflexivity |].
  assert (N : forall t, In (PageText t) (firstn 10 pages) ->
                        field_search F_total_energy t = None).
  { intros t [I | []]. inversion I. vm_compute; reflexivity. }
  destruct (proj2 X4_low_total_energy_leaves_renewables_out
              (str "a.pdf") pages r E N) as (T & _ & W).
  split; [exact T | exact W].
Defined.


Lemma record_talk_score (name : text) (st : scan_state) :
  let r := make_record name st in
  (Talk_Score r == inject_Z (20 * Z.of_nat (Policies r)))%Q
  /\ py_int (Talk_Score r) = (20 * Z.of_nat (Policies r))%Z.
Proof.
  cbv zeta. cbn [Talk_Score Policies make_record].
  set (pc := count_policies (full_text st)).
  unfold scoring. cbn [talk_score].
  rewrite (py_round1_comp _ _ (talk_in_tenths pc)), py_round1_tenths.
  assert (E : (inject_Z (200 * Z.of_nat pc) / 10 == inject_Z (20 * Z.of_nat pc))%Q).
  { replace (200 * Z.of_nat pc)%Z with (20 * Z.of_nat pc * 10)%Z by lia.
    rewrite inject_Z_mult. change (inject_Z 10) with 10%Q. field. }
  split; [exact E |].
  unfold py_int.
  assert (P : Qle_bool 0 (inject_Z (200 * Z.of_nat pc) / 10) = true).
  { apply Qle_bool_iff. rewrite E. change 0%Q with (inject_Z 0).
    rewrite <- Zle_Qle. lia. }
  rewrite P, (Qfloor_comp _ _ E). apply Qfloor_Z.
Qed.

(** X6: the talk score of a record is exactly 20 times its policy count,
    rounding changes nothing of it, and the value the dashboard hands to
    its progress bar, the integer part of the talk score, is that same
    number, between 0 and 100. *)
Theorem X6_talk_score_is_twenty_per_policy
        (name : text) (f : pdf_file) (r : doc_record) :
  process_file name f = Ok r ->
  (Talk_Score r == inject_Z (20 * Z.of_nat (Policies r)))%Q
  /\ progress_value r = (20 * Z.of_nat (Policies r))%Z
  /\ (0 <= progress_value r <= 100)%Z.
Proof.
  intros H. destruct f as [| pages]; [discriminate H |].
  destruct (process_file_ok _ _ _ H) as (st & _ & ->).
  destruct (record_talk_score (company_name name) st) as [T V].
  unfold progress_value. rewrite V.
  split; [exact T |]. split; [reflexivity |].
  cbn [Policies make_record].
  pose proof (count_policies_le (full_text st)). lia.
Qed.

(** X6 at work: two policies affirmed. *)
Lemma X6_witness :
  let pages := [PageText (str "Water Policy: yes. Biodiversity Policy: Yes")] in
  exists r,
    process_file (str "a.pdf") (Pdf pages) = Ok r
    /\ Policies r = 2%nat
    /\ progress_value r = 40%Z.
Proof.
  intros pages.
  destruct (process_file (str "a.pdf") (Pdf pages)) as [r | e] eqn:E;
    [| vm_compute in E; discriminate E].
  exists r. split; [reflexivity |].
  assert (P : Policies r = 2%nat) by (vm_compute in E; inversion E; reflexivity).
  split; [exact P |].
  rewrite (proj1 (proj2 (X6_talk_score_is_twenty_per_policy
                           (str "a.pdf") (Pdf pages) r E))), P.
  reflexivity.
Defined.

Lemma risk_is_talk_without_walk (pc : nat) (csr ren tot : Q) :
  (walk_score (scoring pc csr ren tot) == 0)%Q ->
  (risk_score (scoring pc csr ren tot) == talk_score (scoring pc csr ren tot))%Q.
Proof.
  unfold scoring. cbn [risk_score talk_score walk_score].
  change (inject_Z (Z.of_nat (length policies))) with 5%Q.
  set (w := if Qltb 100 _ then _ else _).
  assert (T0 : (0 <= inject_Z (Z.of_nat pc) / 5 * 100)%Q).
  { assert (E : (inject_Z (Z.of_nat pc) / 5 * 100 == inject_Z (Z.of_nat pc) * 20)%Q)
      by field.
    rewrite E.
    assert (L : (0 <= inject_Z (Z.of_nat pc))%Q).
    { change 0%Q with (inject_Z 0). rewrite <- Zle_Qle. lia. }
    lra. }
  set (talk := (inject_Z (Z.of_nat pc) / 5 * 100)%Q) in *.
  intros W.
  destruct (Qltb (talk - w) 0) eqn:E.
  - apply Qltb_lt in E. lra.
  - lra.
Qed.

(** X7: a document on whose scanned pages neither the CSR pattern nor the
    total energy pattern matches has a walk score of 0, and its risk score
    is its whole talk score. *)
Theorem X7_no_figures_found_means_risk_is_talk
        (name : text) (pages : list page) (r : doc_record) :
  process_file name (Pdf pages) = Ok r ->
  (forall t, In (PageText t) (firstn 10 pages) -> field_search F_csr t = None) ->
  (forall t, In (PageText t) (firstn 10 pages) ->
             field_search F_total_energy t = None) ->
  (Walk_Score r == 0)%Q
  /\ Risk_Score r = Talk_Score r
  /\ (Risk_Score r == inject_Z (20 * Z.of_nat (Policies r)))%Q.
Proof.
  intros H Nc Nt.
  destruct (process_file_ok _ _ _ H) as (st & Sc & ->).
  destruct (record_talk_score (company_name name) st) as [T _].
  destruct (scan_pages_no_match F_csr _ _ _ Nc Sc) as [Vc _].
  destruct (scan_pages_no_match F_total_energy _ _ _ Nt Sc) as [Vt _].
  cbn [field_value init_state csr_spend total_energy] in Vc, Vt.
  cbn [Walk_Score Risk_Score Talk_Score Policies make_record] in *.
  rewrite Vc, Vt in *.
  set (pc := count_policies (full_text st)) in *.
  set (ren := renewable_energy st) in *.
  assert (W0 : (walk_score (scoring pc 0 ren 1) == 0)%Q) by reflexivity.
  pose proof (risk_is_talk_without_walk pc 0 ren 1 W0) as R.
  split; [rewrite (py_round1_comp _ _ W0); reflexivity |].
  split; [exact (py_round1_comp _ _ R) |].
  rewrite (py_round1_comp _ _ R). exact T.
Qed.

(** X7 at work: a report that names a policy and gives no figure. *)
Lemma X7_witness :
  let pages := [PageText (str "Human Rights Policy: Yes")] in
  exists r,
    process_file (str "a.pdf") (Pdf pages) = Ok r
    /\ (Walk_Score r == 0)%Q
    /\ (Risk_Score r == 20)%Q.
Proof.
  intros pages.
  destruct (process_file (str "a.pdf") (Pdf pages)) as [r | e] eqn:E;
    [| vm_compute in E; discriminate E].
  exists r. split; [reflexivity |].
  assert (Nc : forall t, In (PageText t) (firstn 10 pages) ->
                         field_search F_csr t = None).
  { intros t [I | []]. inversion I. vm_compute; reflexivity. }
  assert (Nt : forall t, In (PageText t) (firstn 10 pages) ->
                         field_search F_total_energy t = None).
  { intros t [I | []]. inversion I. vm_compute; reflexivity. }
  destruct (X7_no_figures_found_means_risk_is_talk (str "a.pdf") pages r E Nc Nt)
    as (W & _ & R).
  split; [exact W |].
  rewrite R. vm_compute in E. inversion E. reflexivity.
Defined.

(* ================================================================== *)
(** * Further properties: the dashboard's selection *)
(* ================================================================== *)

Section Selection.

Lemma text_eqb_eq (a b : text) : text_eqb a b = true <-> a = b.
Proof.
  revert b. induction a as [| x a IH]; intros [| y b]; cbn [text_eqb];
    try (split; [discriminate | discriminate]); [split; reflexivity |].
  rewrite andb_true_iff, Ascii.eqb_eq, IH. split.
  - intros [-> ->]. reflexivity.
  - intros E. inversion E. auto.
Qed.

Lemma unique_In (x : text) (l : list text) : In x (unique l) <-> In x l.
Proof.
  induction l as [| n l IH]; cbn [unique In]; [reflexivity |].
  rewrite filter_In, IH. split.
  - intros [E | [I _]]; auto.
  - intros [E | I]; [now left |].
    destruct (text_eqb n x) eqn:T.
    + left. now apply text_eqb_eq.
    + right. split; [exact I | reflexivity].
Qed.

Lemma unique_NoDup (l : list text) : NoDup (unique l).
Proof.
  induction l as [| n l IH]; cbn [unique]; constructor.
  - intros I. apply filter_In in I as [_ T].
    assert (E : text_eqb n n = true) by now apply text_eqb_eq.
    rewrite E in T. discriminate T.
  - now apply NoDup_filter.
Qed.

Lemma comp_data_first (df : list doc_record) (selected : text) :
  In selected (map Company df) ->
  exists before r after,
    df = before ++ r :: after
    /\ comp_data df selected = Some r
    /\ Company r = selected
    /\ forall r', In r' before -> Company r' <> selected.
Proof.
  unfold comp_data.
  induction df as [| x df IH]; cbn [map In find]; [intros [] |].
  intros I. destruct (text_eqb (Company x) selected) eqn:T.
  - exists [], x, df. repeat split; [now apply text_eqb_eq | intros r' []].
  - destruct I as [E | I].
    + apply text_eqb_eq in E. congruence.
    + destruct (IH I) as (before & r & after & -> & F & C & N).
      exists (x :: before), r, after. repeat split; auto.
      intros r' [<- | I']; [| now apply N].
      intros E. apply text_eqb_eq in E. congruence.
Qed.

End Selection.

(** X8: the selector offers each company of the result once, every record's
    company is on offer, and the row shown for a company on offer exists
    and is the first record of the result with that name: when two files
    get the same display name, the record of the later one is never
    shown. *)
Theorem X8_selection_shows_first_record_of_company
        (df : list doc_record) (selected : text) :
  In selected (company_options df) ->
  NoDup (company_options df)
  /\ (forall r, In r df -> In (Company r) (company_options df))
  /\ exists before r after,
      df = before ++ r :: after
      /\ comp_data df selected = Some r
      /\ Company r = selected
      /\ forall r', In r' before -> Company r' <> selected.
Proof.
  intros I. unfold company_options in *.
  split; [apply unique_NoDup |].
  split; [intros r Ir; apply unique_In; now apply in_map |].
  apply comp_data_first. now apply unique_In.
Qed.

(** X8 at work: two files that both show as "Foo Bar"; the selection gives
    the figures of the first. *)
Lemma X8_witness :
  let df := process_pdfs
              (Some [ (str "foo_bar.pdf", Pdf [PageText (str "CSR Expenditure 100")]);
                      (str "foo bar.pdf", Pdf [PageText (str "CSR Expenditure 900")]) ]) in
  company_options df = [str "Foo Bar"]
  /\ length df = 2%nat
  /\ exists r, comp_data df (str "Foo Bar") = Some r /\ CSR_Spend r = inject_Z 100.
Proof.
  intros df.
  assert (O : company_options df = [str "Foo Bar"]) by (vm_compute; reflexivity).
  split; [exact O |]. split; [vm_compute; reflexivity |].
  assert (I : In (str "Foo Bar") (company_options df)) by (rewrite O; now left).
  destruct (X8_selection_shows_first_record_of_company df (str "Foo Bar") I)
    as (_ & _ & before & r & after & D & F & C & N).
  exists r. split; [exact F |].
  vm_compute in F. inversion F. reflexivity.
Defined.

(* ================================================================== *)
(** * Further properties: the policy count *)
(* ================================================================== *)

Section PolicyFacts.

Lemma affirmed_in_context (p t pre post : text) :
  affirmed p t -> affirmed p (pre ++ t ++ post).
Proof.
  intros (a & name & gap & yes & b & -> & E1 & E2).
  exists (pre ++ a), name, gap, yes, (b ++ post).
  split; [| now split].
  now rewrite <- !app_assoc.
Qed.

Lemma filter_length_mono {A : Type} (f g : A -> bool) (l : list A) :
  (forall x, f x = true -> g x = true) ->
  (length (filter f l) <= length (filter g l))%nat.
Proof.
  intros H. induction l as [| x l IH]; cbn [filter]; [lia |].
  destruct (f x) eqn:F.
  - rewrite (H x F). cbn [length]. lia.
  - destruct (g x); cbn [length]; lia.
Qed.

Lemma count_policies_in_context (t pre post : text) :
  (count_policies t <= count_policies (pre ++ t ++ post))%nat.
Proof.
  unfold count_policies. rewrite !count_from_filter. cbn [Nat.add].
  apply filter_length_mono. intros p F.
  apply policy_found_iff. apply affirmed_in_context. now apply policy_found_iff.
Qed.

Lemma map_PageText_app (a b : list text) (c : list page) :
  map PageText a = map PageText b ++ c -> exists d, a = b ++ d.
Proof.
  revert a. induction b as [| x b IH]; intros a E; [now exists a |].
  destruct a as [| y a]; [discriminate E |].
  cbn [map app] in E. inversion E as [[Exy E']].
  destruct (IH a E') as (d & ->). now exists d.
Qed.

End PolicyFacts.

(** X9: text around a text takes no affirmed policy away, so the policy
    count, and with it the talk score, of a document can only grow when
    pages are added after its pages. *)
Theorem X9_more_text_never_lowers_the_policy_count :
  (forall t pre post : text,
      (forall p, affirmed p t -> affirmed p (pre ++ t ++ post))
      /\ (count_policies t <= count_policies (pre ++ t ++ post))%nat)
  /\
  (forall (name : text) (pages more : list page) (r r' : doc_record),
      process_file name (Pdf pages) = Ok r ->
      process_file name (Pdf (pages ++ more)) = Ok r' ->
      (Policies r <= Policies r')%nat
      /\ (Talk_Score r <= Talk_Score r')%Q).
Proof.
  split.
  - intros t pre post. split.
    + intros p. apply affirmed_in_context.
    + apply count_policies_in_context.
  - intros name pages more r r' H H'.
    assert (P : (Policies r <= Policies r')%nat).
    { destruct (process_file_ok _ _ _ H) as (st & Sc & ->).
      destruct (process_file_ok _ _ _ H') as (st' & Sc' & ->).
      destruct (scan_pages_full_text _ _ _ Sc) as (texts & E & F).
      destruct (scan_pages_full_text _ _ _ Sc') as (texts' & E' & F').
      rewrite firstn_app, E in E'.
      destruct (map_PageText_app _ _ _ (eq_sym E')) as (d & ->).
      cbn [Policies make_record]. rewrite F, F'. cbn [init_state full_text app].
      rewrite concat_app.
      exact (count_policies_in_context (concat texts) [] (concat d)). }
    split; [exact P |].
    destruct (process_file_ok _ _ _ H) as (st & _ & Er).
    destruct (process_file_ok _ _ _ H') as (st' & _ & Er').
    pose proof (record_talk_score (company_name name) st) as [T _].
    pose proof (record_talk_score (company_name name) st') as [T' _].
    cbv zeta in T, T'. rewrite <- Er in T. rewrite <- Er' in T'.
    rewrite T, T'. rewrite <- Zle_Qle. lia.
Qed.

(** X9 at work: the "Yes" comes on an added page. *)
Lemma X9_witness :
  let pages := [PageText (str "Climate Change Policy: see annexure.")] in
  let more := [PageText (str "Annexure: yes.")] in
  exists r r',
    process_file (str "a.pdf") (Pdf pages) = Ok r
    /\ process_file (str "a.pdf") (Pdf (pages ++ more)) = Ok r'
    /\ Policies r = 0%nat /\ Policies r' = 1%nat
    /\ (Policies r <= Policies r')%nat.
Proof.
  intros pages more.
  destruct (process_file (str "a.pdf") (Pdf pages)) as [r | e] eqn:E;
    [| vm_compute in E; discriminate E].
  destruct (process_file (str "a.pdf") (Pdf (pages ++ more))) as [r' | e] eqn:E';
    [| vm_compute in E'; discriminate E'].
  exists r, r'. split; [reflexivity |]. split; [reflexivity |].
  split; [vm_compute in E; inversion E; reflexivity |].
  split; [vm_compute in E'; inversion E'; reflexivity |].
  exact (proj1 (proj2 X9_more_text_never_lowers_the_policy_count
                  (str "a.pdf") pages more r r' E E')).
Defined.

(* ================================================================== *)
(** * Further properties: what a field search picks *)
(* ================================================================== *)

Section MatcherOrder.

Variable fl : flags.
Variable A : Type.

(** The lazy star stops at the first place where the rest of the pattern
    succeeds. *)
Lemma star_lazy_first (a : atom) (k : cont A) (s : text) (caps : captures) (x : A) :
  star_lazy fl a k s caps = Some x ->
  exists w s',
    s = w ++ s'
    /\ forallb (accepts fl a) w = true
    /\ k s' caps = Some x
    /\ forall w1 c w2, w = w1 ++ c :: w2 -> k (c :: w2 ++ s') caps = None.
Proof.
  induction s as [| c s IH]; cbn [star_lazy]; intros H.
  - destruct (k [] caps) as [y |] eqn:K; [| discriminate].
    exists [], []. repeat split; [congruence |].
    intros w1 c w2 E. now destruct w1.
  - destruct (k (c :: s) caps) as [y |] eqn:K.
    + exists [], (c :: s). repeat split; [congruence |].
      intros w1 c0 w2 E. now destruct w1.
    + destruct (accepts fl a c) eqn:Ac; [| discriminate].
      destruct (IH H) as (w & s' & -> & F & K' & N).
      exists (c :: w), s'. cbn [forallb app]. rewrite Ac, F.
      repeat split; [exact K' |].
      intros [| c1 w1] c0 w2 E; cbn [app] in E; inversion E; subst.
      * exact K.
      * exact (N w1 c0 w2 eq_refl).
Qed.

(** The greedy star takes every character it can when the rest of the
    pattern succeeds wherever it starts. *)
Lemma star_greedy_max (a : atom) (k : cont A) (s : text) (caps : captures) (x : A) :
  (forall s' caps', k s' caps' <> None) ->
  star_greedy fl a k s caps = Some x ->
  exists w s',
    s = w ++ s'
    /\ forallb (accepts fl a) w = true
    /\ k s' caps = Some x
    /\ match s' with
       | c :: _ => accepts fl a c = false
       | [] => True
       end.
Proof.
  intros T. induction s as [| c s IH]; cbn [star_greedy]; intros H.
  - exists [], []. repeat split; exact H.
  - destruct (accepts fl a c) eqn:Ac.
    + destruct (star_greedy fl a k s caps) as [y |] eqn:R.
      * inversion H; subst y. destruct (IH eq_refl) as (w & s' & -> & F & K & M).
        exists (c :: w), s'. cbn [forallb app]. rewrite Ac, F. repeat split; auto.
      * exfalso. revert R. clear -T.
        induction s as [| d s IHs]; cbn [star_greedy]; [apply T |].
        destruct (accepts fl a d); [| apply T].
        destruct (star_greedy fl a k s caps); [discriminate | apply T].
    + exists [], (c :: s). repeat split; [exact H | exact Ac].
Qed.

(** [re_search] answers with the match of the first position that has one. *)
Lemma re_search_leftmost (r : regex) (t : text) (m : match_obj) :
  re_search fl r t = Some m ->
  exists pre s,
    t = pre ++ s
    /\ match_here fl r s = Some m
    /\ forall p1 c p2, pre = p1 ++ c :: p2 -> match_here fl r (c :: p2 ++ s) = None.
Proof.
  induction t as [| c t IH]; cbn [re_search]; intros H.
  - destruct (match_here fl r []) eqn:E; [| discriminate].
    exists [], []. repeat split; [congruence |].
    intros p1 c p2 E'. now destruct p1.
  - destruct (match_here fl r (c :: t)) eqn:E.
    + exists [], (c :: t). repeat split; [congruence |].
      intros p1 c0 p2 E'. now destruct p1.
    + destruct (IH H) as (pre & s & -> & M & N).
      exists (c :: pre), s. repeat split; [exact M |].
      intros [| c1 p1] c0 p2 E'; cbn [app] in E'; inversion E'; subst.
      * exact E.
      * exact (N p1 c0 p2 eq_refl).
Qed.

End MatcherOrder.

Section FieldAnatomy.

Lemma point_only (c : ascii) :
  accepts IGNORECASE (Lit "."%char) c = true -> c = "."%char.
Proof.
  intros H. destruct c as [b0 b1 b2 b3 b4 b5 b6 b7].
  destruct b0, b1, b2, b3, b4, b5, b6, b7;
    vm_compute in H; try discriminate H; reflexivity.
Qed.

Lemma digits_tail_total (A : Type) (k : cont A) :
  (forall s caps, k s caps <> None) ->
  forall s caps, exec IGNORECASE (Star Digit) k s caps <> None.
Proof.
  intros T s caps.
  apply (exec_complete IGNORECASE A (Star Digit) s s); [| intros; apply T].
  apply m_star, reps_nil.
Qed.

Lemma number_tail_total (A : Type) (k : cont A) :
  (forall s caps, k s caps <> None) ->
  forall s caps,
    exec IGNORECASE (Seq (Opt (Lit "."%char)) (Star Digit)) k s caps <> None.
Proof.
  intros T s caps.
  apply (exec_complete IGNORECASE A _ s s); [| intros; apply T].
  apply m_seq with (s1 := s); [apply m_opt_none | apply m_star, reps_nil].
Qed.

Lemma not_accepted_no_digit (s : text) :
  match s with
  | c :: _ => accepts IGNORECASE Digit c = false
  | [] => True
  end ->
  head_is_digit s = false.
Proof. destruct s as [| c s]; [reflexivity | exact (fun H => H)]. Qed.

(** With a rest that succeeds anywhere, the number pattern takes the whole
    figure: digits and commas, a point if one follows, and every digit
    after it. *)
Lemma exec_number_greedy (A : Type) (k : cont A) (s : text) (caps : captures) (x : A) :
  (forall s' caps', k s' caps' <> None) ->
  exec IGNORECASE number_re k s caps = Some x ->
  exists a b c s',
    s = a ++ b ++ c ++ s'
    /\ a <> [] /\ forallb opens_number a = true
    /\ (b = [] \/ b = ["."%char])
    /\ forallb is_digit c = true
    /\ k s' caps = Some x
    /\ head_is_digit s' = false.
Proof.
  intros T H. unfold number_re in H.
  change (exec IGNORECASE (Plus (Class [CDigit; CChar ","%char]))
            (exec IGNORECASE (Seq (Opt (Lit "."%char)) (Star Digit)) k)
            s caps = Some x) in H.
  pose proof (number_tail_total A k T) as T1.
  remember (exec IGNORECASE (Seq (Opt (Lit "."%char)) (Star Digit)) k) as K1 eqn:EK1.
  cbn [exec] in H.
  destruct s as [| d s0]; [discriminate H |].
  destruct (accepts IGNORECASE (Class [CDigit; CChar ","%char]) d) eqn:Ad;
    [| discriminate H].
  destruct (star_greedy_max IGNORECASE A _ K1 s0 caps x T1 H)
    as (w1 & s1 & -> & F1 & HK & _).
  assert (Fa : forallb opens_number (d :: w1) = true).
  { cbn [forallb]. rewrite <- (class_opens_number IGNORECASE), Ad. cbn [andb].
    rewrite forallb_forall in F1. apply forallb_forall. intros y I.
    rewrite <- (class_opens_number IGNORECASE). now apply F1. }
  subst K1.
  change (exec IGNORECASE (Opt (Lit "."%char)) (exec IGNORECASE (Star Digit) k)
            s1 caps = Some x) in HK.
  pose proof (digits_tail_total A k T) as T2.
  remember (exec IGNORECASE (Star Digit) k) as K2 eqn:EK2.
  cbn [exec] in HK.
  assert (G : forall s2, K2 s2 caps = Some x ->
                         exists c s', s2 = c ++ s' /\ forallb is_digit c = true
                                      /\ k s' caps = Some x
                                      /\ head_is_digit s' = false).
  { intros s2 H2. subst K2. cbn [exec] in H2.
    destruct (star_greedy_max IGNORECASE A _ k s2 caps x T H2)
      as (c & s' & -> & Fc & Kx & M).
    exists c, s'. repeat split; auto. now apply not_accepted_no_digit. }
  destruct s1 as [| c1 r1].
  - destruct (G [] HK) as (c & s' & E & Fc & Kx & Hd).
    exists (d :: w1), [], c, s'. cbn [app]. rewrite <- E.
    repeat split; auto; discriminate.
  - destruct (accepts IGNORECASE (Lit "."%char) c1) eqn:Ap.
    + apply point_only in Ap. subst c1.
      destruct (K2 r1 caps) as [y |] eqn:E2; [| exfalso; exact (T2 r1 caps E2)].
      inversion HK; subst y.
      destruct (G r1 E2) as (c & s' & -> & Fc & Kx & Hd).
      exists (d :: w1), ["."%char], c, s'. cbn [app].
      repeat split; auto; discriminate.
    + destruct (G (c1 :: r1) HK) as (c & s' & E & Fc & Kx & Hd).
      exists (d :: w1), [], c, s'. cbn [app]. rewrite <- E.
      repeat split; auto; discriminate.
Qed.

Lemma forallb_of_splits (p : ascii -> bool) (w : text) :
  (forall w1 c w2, w = w1 ++ c :: w2 -> p c = true) -> forallb p w = true.
Proof.
  induction w as [| c w IH]; intros H; [reflexivity |].
  cbn [forallb]. rewrite (H [] c w eq_refl). cbn [andb].
  apply IH. intros w1 c0 w2 E. apply (H (c :: w1) c0 w2). now rewrite E.
Qed.

(** The parts of the match a field pattern finds at the start of a text. *)
Lemma field_match_here_anatomy (f : field) (s : text) (m : match_obj) :
  match_here IGNORECASE (field_re_of f) s = Some m ->
  exists lab gap a b c post,
    s = (lab ++ gap ++ (a ++ b ++ c)) ++ post
    /\ group0 m = lab ++ gap ++ (a ++ b ++ c)
    /\ group m 2 = a ++ b ++ c
    /\ is_label f lab
    /\ forallb (fun x => negb (Ascii.eqb x newline) && negb (opens_number x)) gap
       = true
    /\ a <> [] /\ forallb opens_number a = true
    /\ (b = [] \/ b = ["."%char])
    /\ forallb is_digit c = true
    /\ head_is_digit post = false.
Proof.
  rewrite field_re_of_shape. unfold match_here.
  set (k := fun (s' : text) (caps : captures) =>
              Some (mkMatch (consumed s s') caps)).
  intros H.
  change (exec IGNORECASE
            (Group 1 (Alt (lit (field_primary f)) (lit (field_fallback f))))
            (exec IGNORECASE (Seq (StarLazy Dot) (Group 2 number_re)) k)
            s [] = Some m) in H.
  destruct (exec_sound _ _ _ _ _ _ _ H) as (s1 & caps1 & M1 & H1).
  assert (L : exists lab, s = lab ++ s1 /\ is_label f lab).
  { inversion M1 as [| | | | | n r sa sb MA | | | | |]; subst.
    inversion MA as [| | | ra rb sa sb MP | ra rb sa sb MF | | | | | |]; subst.
    - destruct (matches_lit_inv IGNORECASE eq_refl _ _ _ MP) as (lab & -> & E).
      exists lab. split; [reflexivity | now left].
    - destruct (matches_lit_inv IGNORECASE eq_refl _ _ _ MF) as (lab & -> & E).
      exists lab. split; [reflexivity | now right]. }
  destruct L as (lab & Es & L).
  change (star_lazy IGNORECASE Dot (exec IGNORECASE (Group 2 number_re) k)
            s1 caps1 = Some m) in H1.
  destruct (star_lazy_first _ _ _ _ _ _ _ H1) as (gap & s2 & -> & Fg & H2 & N).
  assert (T : forall s2' s' caps',
             (fun s' caps' => k s' ((2%nat, consumed s2' s') :: caps')) s' caps'
             <> None) by (intros; discriminate).
  assert (Gp : forallb (fun x => negb (Ascii.eqb x newline) && negb (opens_number x))
                       gap = true).
  { apply forallb_of_splits. intros w1 x w2 E.
    apply andb_true_iff. split.
    - rewrite forallb_forall in Fg.
      assert (I : In x gap) by (rewrite E; apply in_elt).
      specialize (Fg x I). cbn [accepts dotall IGNORECASE orb] in Fg. exact Fg.
    - specialize (N w1 x w2 E).
      destruct (opens_number x) eqn:O; [| reflexivity].
      exfalso. revert N.
      apply (exec_complete IGNORECASE _ (Group 2 number_re)
               (x :: w2 ++ s2) (w2 ++ s2)).
      + apply m_group. now apply number_re_intro.
      + intros caps'. discriminate. }
  change (exec IGNORECASE number_re
            (fun s' caps' => k s' ((2%nat, consumed s2 s') :: caps'))
            s2 caps1 = Some m) in H2.
  destruct (exec_number_greedy _ _ _ _ _ (T s2) H2)
    as (a & b & c & post & -> & Na & Fa & B & Fc & K & Hd).
  exists lab, gap, a, b, c, post.
  assert (E2 : a ++ b ++ c ++ post = (a ++ b ++ c) ++ post)
    by (now rewrite <- !app_assoc).
  assert (E0 : s = (lab ++ gap ++ a ++ b ++ c) ++ post).
  { rewrite Es, E2, <- !app_assoc. reflexivity. }
  split; [exact E0 |].
  unfold k in K. inversion K as [Em]. cbn [group0 group groups assoc_nat Nat.eqb].
  rewrite E2, consumed_app. rewrite E0 at 1. rewrite consumed_app.
  repeat split; auto.
Qed.

(** The parts of the match a field search answers with. *)
Lemma field_search_anatomy (f : field) (t : text) (m : match_obj) :
  field_search f t = Some m ->
  exists pre lab gap a b c post,
    t = pre ++ group0 m ++ post
    /\ group0 m = lab ++ gap ++ group m 2
    /\ group m 2 = a ++ b ++ c
    /\ is_label f lab
    /\ forallb (fun x => negb (Ascii.eqb x newline) && negb (opens_number x)) gap
       = true
    /\ a <> [] /\ forallb opens_number a = true
    /\ (b = [] \/ b = ["."%char])
    /\ forallb is_digit c = true
    /\ head_is_digit post = false
    /\ forall p1 x p2,
        pre = p1 ++ x :: p2 ->
        match_here IGNORECASE (field_re_of f) (x :: p2 ++ group0 m ++ post) = None.
Proof.
  unfold field_search. intros H.
  destruct (re_search_leftmost _ _ _ _ H) as (pre & s & -> & MH & N).
  destruct (field_match_here_anatomy f s m MH)
    as (lab & gap & a & b & c & post & Es & G0 & G2 & L & Gp & Na & Fa & B & Fc & Hd).
  exists pre, lab, gap, a, b, c, post.
  rewrite G0, G2. rewrite <- Es.
  repeat split; auto.
Qed.

End FieldAnatomy.

Section Provenance.

Lemma comes_from_more (f : field) (pages more : list page) (v : Q)
      (ev : option text) :
  comes_from f pages v ev -> comes_from f (pages ++ more) v ev.
Proof.
  intros [D | (t & m & I & S & P & E)]; [now left |].
  right. exists t, m. repeat split; auto. apply in_or_app. now left.
Qed.

Lemma scan_pages_comes_from (f : field) (ps seen : list page) (st st' : scan_state) :
  comes_from f seen (field_value f st) (field_evidence f st) ->
  scan_pages ps st = Ok st' ->
  comes_from f (seen ++ ps) (field_value f st') (field_evidence f st').
Proof.
  revert seen st. induction ps as [| p ps IH]; intros seen st C H;
    cbn [scan_pages] in H.
  - inversion H; subst. now rewrite app_nil_r.
  - destruct (scan_page p st) as [st1 |] eqn:E; cbn [bind] in H; [| discriminate].
    destruct (scan_page_field f _ _ _ E) as (t & -> & A).
    replace (seen ++ PageText t :: ps) with ((seen ++ [PageText t]) ++ ps)
      by (now rewrite <- app_assoc).
    apply (IH _ st1); [| exact H].
    unfold field_after in A.
    assert (K : Ok (field_value f st, field_evidence f st)
                = Ok (field_value f st1, field_evidence f st1)
                -> comes_from f (seen ++ [PageText t])
                              (field_value f st1) (field_evidence f st1)).
    { intros Q. injection Q as V Ev. rewrite <- V, <- Ev.
      now apply comes_from_more. }
    destruct (field_guard f st); [| now apply K].
    destruct (field_search f t) as [m |] eqn:S; [| now apply K].
    destruct (parse_group2 m) as [v |] eqn:P; cbn [bind] in A; [| discriminate].
    injection A as V Ev. rewrite <- V, <- Ev. right. exists t, m.
    repeat split; auto. apply in_or_app. right. now left.
Qed.

Lemma snippet_is_not_the_sentinel (f : field) (lab rest : text) :
  f = F_csr \/ f = F_renewable ->
  is_label f lab ->
  lab ++ rest <> str "Not Found".
Proof.
  intros F L E.
  assert (H : exists x lab', lab = x :: lab'
                             /\ (eqb_ci "C"%char x = true \/ eqb_ci "R"%char x = true)).
  { destruct lab as [| x lab'].
    - destruct F as [-> | ->]; destruct L as [L | L]; discriminate L.
    - exists x, lab'. split; [reflexivity |].
      destruct F as [-> | ->]; destruct L as [L | L];
        cbn [field_primary field_fallback] in L;
        apply andb_true_iff in L as [L _]; auto. }
  destruct H as (x & lab' & -> & H).
  inversion E; subst x. destruct H as [H | H]; discriminate H.
Qed.

End Provenance.

(** X10: in every record, the value of a field and its evidence snippet
    are either both the initial ones, or both read off one and the same
    match on one of the scanned pages.  So an evidence of "Not Found"
    goes with the value 0, for CSR spending and for renewable energy. *)
Theorem X10_value_and_evidence_come_from_one_match
        (name : text) (pages : list page) (r : doc_record) :
  process_file name (Pdf pages) = Ok r ->
  (forall f, comes_from f (firstn 10 pages) (record_value f r) (record_evidence f r))
  /\ (CSR_Evidence r = str "Not Found" -> CSR_Spend r = 0%Q)
  /\ (Renewable_Evidence r = str "Not Found" -> Renewable_Energy r = 0%Q).
Proof.
  intros H. destruct (process_file_ok _ _ _ H) as (st & Sc & ->).
  assert (C : forall f, comes_from f (firstn 10 pages)
                          (record_value f (make_record (company_name name) st))
                          (record_evidence f (make_record (company_name name) st))).
  { intros f. destruct (record_field f (company_name name) st) as [-> ->].
    apply (scan_pages_comes_from f (firstn 10 pages) [] init_state st); [| exact Sc].
    now left. }
  split; [exact C |].
  assert (S : forall f, f = F_csr \/ f = F_renewable ->
                        record_evidence f (make_record (company_name name) st)
                        = Some (str "Not Found") ->
                        record_value f (make_record (company_name name) st) = 0%Q).
  { intros f F E. destruct (C f) as [[V _] | (t & m & _ & Sr & _ & Ev)].
    - rewrite V. destruct F as [-> | ->]; reflexivity.
    - exfalso. rewrite E in Ev.
      destruct (field_search_anatomy f t m Sr)
        as (_ & lab & gap & _ & _ & _ & _ & _ & G0 & _ & L & _).
      assert (G : group0 m = str "Not Found").
      { destruct F as [-> | ->]; cbn [match_evidence] in Ev; congruence. }
      rewrite G0 in G. exact (snippet_is_not_the_sentinel f lab _ F L G). }
  split; intros E.
  - apply (S F_csr (or_introl eq_refl)). cbn [record_evidence]. now rewrite E.
  - apply (S F_renewable (or_intror eq_refl)). cbn [record_evidence]. now rewrite E.
Qed.

(** X10 at work: a report without a CSR figure. *)
Lemma X10_witness :
  let pages := [PageText (str "Renewable Energy Use: 40 GJ")] in
  exists r,
    process_file (str "a.pdf") (Pdf pages) = Ok r
    /\ CSR_Evidence r = str "Not Found"
    /\ CSR_Spend r = 0%Q.
Proof.
  intros pages.
  destruct (process_file (str "a.pdf") (Pdf pages)) as [r | e] eqn:E;
    [| vm_compute in E; discriminate E].
  exists r. split; [reflexivity |].
  assert (N : CSR_Evidence r = str "Not Found")
    by (vm_compute in E; inversion E; reflexivity).
  split; [exact N |].
  exact (proj1 (proj2 (X10_value_and_evidence_come_from_one_match
                         (str "a.pdf") pages r E)) N).
Defined.

(** X11: the text a field search matches is a piece of the page: it begins
    with one of the two phrases of the field, up to case, it ends with the
    number group, and between the two there is no line break, no digit
    and no comma: the number read is the first one after the phrase. *)
Theorem X11_the_match_runs_from_the_phrase_to_the_first_number
        (f : field) (t : text) (m : match_obj) :
  field_search f t = Some m ->
  exists pre lab gap post,
    t = pre ++ group0 m ++ post
    /\ group0 m = lab ++ gap ++ group m 2
    /\ is_label f lab
    /\ (forall x, In x gap ->
                  x <> newline /\ is_digit x = false /\ x <> ","%char)
    /\ group m 2 <> [].
Proof.
  intros H.
  destruct (field_search_anatomy f t m H)
    as (pre & lab & gap & a & b & c & post & Et & G0 & G2 & L & Gp & Na & _).
  exists pre, lab, gap, post.
  split; [exact Et |]. split; [exact G0 |]. split; [exact L |]. split.
  - intros x I. rewrite forallb_forall in Gp. specialize (Gp x I).
    apply andb_true_iff in Gp as [Gn Go]. apply negb_true_iff in Gn, Go.
    unfold opens_number in Go. apply orb_false_iff in Go as [Gd Gc].
    split; [| split; [exact Gd |]].
    + intros E. subst x. rewrite Ascii.eqb_refl in Gn. discriminate Gn.
    + intros E. subst x. discriminate Gc.
  - rewrite G2. intros E. apply app_eq_nil in E as [E _]. contradiction.
Qed.

(** X11 at work: the year in brackets is the first number after the
    phrase, and it is what is read. *)
Lemma X11_witness :
  let t := str "Note 7. CSR Expenditure (FY 2023): Rs 1,250 crore" in
  let m := mkMatch (str "CSR Expenditure (FY 2023")
                   [(2%nat, str "2023"); (1%nat, str "CSR Expenditure")] in
  field_search F_csr t = Some m
  /\ exists pre lab gap post,
      t = pre ++ group0 m ++ post
      /\ group0 m = lab ++ gap ++ group m 2
      /\ is_label F_csr lab
      /\ (forall x, In x gap ->
                    x <> newline /\ is_digit x = false /\ x <> ","%char)
      /\ group m 2 <> [].
Proof.
  intros t m.
  assert (S : field_search F_csr t = Some m) by (vm_compute; reflexivity).
  split; [exact S |].
  exact (X11_the_match_runs_from_the_phrase_to_the_first_number F_csr t m S).
Defined.

(** X12: a field search answers with the first occurrence in the page: at
    no earlier position of the text does a phrase of the field stand with
    the start of a number after it on its line. *)
Theorem X12_the_match_is_the_first_in_the_page
        (f : field) (t : text) (m : match_obj) :
  field_search f t = Some m ->
  exists pre post,
    t = pre ++ group0 m ++ post
    /\ label_then_number_here f (group0 m ++ post)
    /\ forall p1 x p2,
        pre = p1 ++ x :: p2 ->
        ~ label_then_number_here f (x :: p2 ++ group0 m ++ post).
Proof.
  intros H.
  destruct (field_search_anatomy f t m H)
    as (pre & lab & gap & a & b & c & post & Et & G0 & G2 & L & Gp & Na & Fa
        & _ & _ & _ & N).
  exists pre, post. split; [exact Et |]. split.
  - destruct a as [| d a]; [contradiction |].
    exists lab, gap, d, (a ++ b ++ c ++ post).
    split; [rewrite G0, G2, <- !app_assoc; reflexivity |].
    split; [exact L |]. split.
    + intros I. rewrite forallb_forall in Gp. specialize (Gp _ I).
      apply andb_true_iff in Gp as [Gn _].
      rewrite Ascii.eqb_refl in Gn. discriminate Gn.
    + cbn [forallb] in Fa. now apply andb_true_iff in Fa as [Fa _].
  - intros p1 x p2 E (lab' & gap' & d & post' & Es & L' & Ng & O).
    specialize (N p1 x p2 E). revert N. rewrite Es.
    apply (match_here_complete IGNORECASE (field_re_of f) _ post').
    now apply field_re_matches_intro.
Qed.

(** X12 at work: the fallback phrase comes first in the page and wins over
    the primary phrase further on. *)
Lemma X12_witness :
  let t := str "CSR Expenditure 10. Community Spending 20." in
  let m := mkMatch (str "CSR Expenditure 10.")
                   [(2%nat, str "10."); (1%nat, str "CSR Expenditure")] in
  field_search F_csr t = Some m
  /\ exists pre post,
      t = pre ++ group0 m ++ post
      /\ label_then_number_here F_csr (group0 m ++ post)
      /\ forall p1 x p2,
          pre = p1 ++ x :: p2 ->
          ~ label_then_number_here F_csr (x :: p2 ++ group0 m ++ post).
Proof.
  intros t m.
  assert (S : field_search F_csr t = Some m) by (vm_compute; reflexivity).
  split; [exact S |].
  exact (X12_the_match_is_the_first_in_the_page F_csr t m S).
Defined.

(** X13: the number group of a field match is the whole figure: digits and
    commas, then at most one point, then digits, and the character that
    follows the match in the page is not a digit. *)
Theorem X13_the_number_is_read_to_its_last_digit
        (f : field) (t : text) (m : match_obj) :
  field_search f t = Some m ->
  exists pre post a b c,
    t = pre ++ group0 m ++ post
    /\ group m 2 = a ++ b ++ c
    /\ a <> []
    /\ forallb opens_number a = true
    /\ (b = [] \/ b = ["."%char])
    /\ forallb is_digit c = true
    /\ head_is_digit post = false.
Proof.
  intros H.
  destruct (field_search_anatomy f t m H)
    as (pre & lab & gap & a & b & c & post & Et & G0 & G2 & L & Gp & Na & Fa
        & B & Fc & Hd & N).
  exists pre, post, a, b, c. repeat split; auto.
Qed.

(** X13 at work: a figure with separators and decimals, read whole. *)
Lemma X13_witness :
  let t := str "Energy Consumption: 12,34,567.89 GJ" in
  let m := mkMatch (str "Energy Consumption: 12,34,567.89")
                   [(2%nat, str "12,34,567.89"); (1%nat, str "Energy Consumption")] in
  field_search F_total_energy t = Some m
  /\ parse_group2 m = Ok (inject_Z 123456789 / inject_Z 100)%Q
  /\ exists pre post a b c,
      t = pre ++ group0 m ++ post
      /\ group m 2 = a ++ b ++ c
      /\ a <> []
      /\ forallb opens_number a = true
      /\ (b = [] \/ b = ["."%char])
      /\ forallb is_digit c = true
      /\ head_is_digit post = false.
Proof.
  intros t m.
  assert (S : field_search F_total_energy t = Some m) by (vm_compute; reflexivity).
  split; [exact S |]. split; [vm_compute; reflexivity |].
  exact (X13_the_number_is_read_to_its_last_digit F_total_energy t m S).
Defined.

Section KeptDocuments.

Lemma parse_group2_ok (f : field) (t : text) (m : match_obj) :
  field_search f t = Some m ->
  existsb is_digit (group m 2) = true ->
  exists v, parse_group2 m = Ok v.
Proof.
  intros S D. destruct (parse_group2 m) as [v | e] eqn:P; [now exists v |].
  exfalso. rewrite (parse_group2_raises m e P) in P.
  apply (field_match_parse_failure f t m S) in P. congruence.
Qed.

Lemma scan_text_ok (t : text) (st : scan_state) :
  (forall f m, field_search f t = Some m -> exists v, parse_group2 m = Ok v) ->
  exists st', scan_text t st = Ok st'.
Proof.
  intros H. unfold scan_text.
  assert (B1 : exists s1, scan_csr t st = Ok s1).
  { unfold scan_csr. destruct (Qeq_bool (csr_spend st) 0); [| eauto].
    destruct (re_search IGNORECASE csr_re t) as [m |] eqn:S; [| eauto].
    destruct (H F_csr m S) as (v & P). rewrite P. cbn [bind]. eauto. }
  destruct B1 as (s1 & ->). cbn [bind].
  assert (B2 : exists s2, scan_renewable t s1 = Ok s2).
  { unfold scan_renewable. destruct (Qeq_bool (renewable_energy s1) 0); [| eauto].
    destruct (re_search IGNORECASE ren_re t) as [m |] eqn:S; [| eauto].
    destruct (H F_renewable m S) as (v & P). rewrite P. cbn [bind]. eauto. }
  destruct B2 as (s2 & ->). cbn [bind].
  assert (B3 : exists s3, scan_total_energy t s2 = Ok s3).
  { unfold scan_total_energy. destruct (Qeq_bool (total_energy s2) 1); [| eauto].
    destruct (re_search IGNORECASE en_re t) as [m |] eqn:S; [| eauto].
    destruct (H F_total_energy m S) as (v & P). rewrite P. cbn [bind]. eauto. }
  destruct B3 as (s3 & ->). cbn [bind].
  unfold scan_ghg. destruct (Qeq_bool (ghg_emissions s3) 0); [| eauto].
  destruct (re_search IGNORECASE ghg_re t) as [m |] eqn:S; [| eauto].
  destruct (H F_ghg m S) as (v & P). rewrite P. cbn [bind]. eauto.
Qed.

Lemma scan_pages_ok (ps : list page) (st : scan_state) :
  (forall p, In p ps ->
             exists t, p = PageText t
                       /\ forall f m, field_search f t = Some m ->
                                      existsb is_digit (group m 2) = true) ->
  exists st', scan_pages ps st = Ok st'.
Proof.
  revert st. induction ps as [| p ps IH]; intros st H; cbn [scan_pages]; [eauto |].
  destruct (H p (or_introl eq_refl)) as (t & -> & D).
  cbn [scan_page extract_text bind].
  destruct (scan_text_ok t (set_full_text (full_text st ++ t) st)) as (st1 & ->).
  - intros f m S. exact (parse_group2_ok f t m S (D f m S)).
  - cbn [bind]. apply IH. intros q I. apply H. now right.
Qed.

End KeptDocuments.

(** X14: a document is kept, with a record of its own at its place in
    the result, as soon as each of its first ten pages gives a text and
    every number a field pattern matches on them holds a digit. *)
Theorem X14_documents_with_readable_pages_and_figures_are_kept
        (name : text) (pages : list page) :
  (forall p, In p (firstn 10 pages) ->
             exists t, p = PageText t
                       /\ forall f m, field_search f t = Some m ->
                                      existsb is_digit (group m 2) = true) ->
  exists r,
    process_file name (Pdf pages) = Ok r
    /\ (ends_with (str ".pdf") name = true ->
        forall before after,
          process_pdfs (Some (before ++ (name, Pdf pages) :: after))
          = process_pdfs (Some before) ++ r :: process_pdfs (Some after)).
Proof.
  intros H.
  destruct (scan_pages_ok (firstn 10 pages) init_state H) as (st & Sc).
  exists (make_record (company_name name) st).
  assert (P : process_file name (Pdf pages)
              = Ok (make_record (company_name name) st)).
  { unfold process_file. now rewrite Sc. }
  split; [exact P |].
  intros E before after.
  rewrite !process_pdfs_flat_map, filter_app, flat_map_app.
  cbn [filter fst]. rewrite E. cbn [flat_map].
  unfold records_of at 2. cbn [fst snd]. rewrite P. reflexivity.
Qed.

(** X14 at work: two pages of text with well-formed figures. *)
Lemma X14_witness :
  let pages := [ PageText (str "CSR Expenditure 500");
                 PageText (str "Scope 1 Emissions: 1,200 tCO2e") ] in
  exists r,
    process_file (str "a.pdf") (Pdf pages) = Ok r
    /\ process_pdfs (Some [(str "a.pdf", Pdf pages)]) = [r].
Proof.
  intros pages.
  assert (H : forall p, In p (firstn 10 pages) ->
                        exists t, p = PageText t
                                  /\ forall f m, field_search f t = Some m ->
                                                 existsb is_digit (group m 2) = true).
  { intros p [<- | [<- | []]].
    - exists (str "CSR Expenditure 500"). split; [reflexivity |].
      intros f m S. destruct f; vm_compute in S; try discriminate S.
      inversion S. reflexivity.
    - exists (str "Scope 1 Emissions: 1,200 tCO2e"). split; [reflexivity |].
      intros f m S. destruct f; vm_compute in S; try discriminate S.
      inversion S. reflexivity. }
  destruct (X14_documents_with_readable_pages_and_figures_are_kept
              (str "a.pdf") pages H) as (r & P & B).
  exists r. split; [exact P |].
  exact (B eq_refl [] []).
Defined.

(* ================================================================== *)
(** * Further properties: the display name *)
(* ================================================================== *)

Section FallbackName.

Lemma py_replace_char (x y : ascii) (s : text) :
  py_replace [x] [y] s = map (fun c => if Ascii.eqb x c then y else c) s.
Proof.
  unfold py_replace. induction s as [| c s IH]; [reflexivity |].
  cbn [replace_from starts_with map length Nat.sub].
  destruct (Ascii.eqb x c); cbn [andb app]; now rewrite IH.
Qed.

Lemma case_change_makes_no_underscore (c : ascii) :
  c <> "_"%char -> to_lower c <> "_"%char /\ to_upper c <> "_"%char.
Proof.
  destruct c as [b0 b1 b2 b3 b4 b5 b6 b7].
  destruct b0, b1, b2, b3, b4, b5, b6, b7; intros N;
    split; vm_compute; intros E; try discriminate E; now apply N.
Qed.

Lemma title_from_no_underscore (s : text) (prev : bool) :
  ~ In "_"%char s -> ~ In "_"%char (title_from prev s).
Proof.
  revert prev. induction s as [| c s IH]; intros prev N; [exact N |].
  cbn [title_from]. intros [E | I].
  - assert (Nc : c <> "_"%char) by (intros ->; apply N; now left).
    destruct (case_change_makes_no_underscore c Nc) as [L U].
    destruct prev; [now apply L | now apply U].
  - apply (IH _ (fun I' => N (or_intror I')) I).
Qed.

End FallbackName.

(** X15: the display name derived from a file name that is not in the
    table holds no underscore: each one has become a blank. *)
Theorem X15_fallback_names_have_no_underscore (filename : text) :
  dict_get filename name_map = None ->
  ~ In "_"%char (company_name filename).
Proof.
  intros H. unfold company_name. rewrite H.
  apply title_from_no_underscore.
  change (str "_") with ["_"%char]. change (str " ") with [" "%char].
  rewrite py_replace_char. intros I.
  apply in_map_iff in I as (c & E & _).
  destruct (Ascii.eqb_spec "_"%char c) as [_ | N]; [discriminate E |].
  now apply N.
Qed.

(** X15 at work: underscores at both ends and doubled. *)
Lemma X15_witness :
  company_name (str "_tata__power_.pdf") = str " Tata  Power "
  /\ ~ In "_"%char (company_name (str "_tata__power_.pdf")).
Proof.
  split; [vm_compute; reflexivity |].
  apply (X15_fallback_names_have_no_underscore (str "_tata__power_.pdf")).
  vm_compute; reflexivity.
Defined.
